(** * bcndetection: the graph-feature notebooks, embedded and checked

    The development follows [dummypipeline/1_genfeats_graph.ipynb], the
    graph notebook.  Python values are dynamically typed, exceptions are
    explicit results, pandas frames are ordered lists of labelled columns.
    The graph database and the feature generators are in [src/addnode.py],
    [src/graphscore_feats.py] and [src/temporal_feats.py], which the
    notebook only calls.

    Part I holds the definitions, Part II the theorems. *)

From Stdlib Require Import ZArith QArith Qcanon.
From stdpp Require Import base option strings list gmap.

Set Warnings "-clear-no-such-hyp".

(* ===================================================================== *)
(** * Part I: definitions *)
(* ===================================================================== *)

(** ** Python results, exceptions and name resolution *)

Module Py.

Inductive exn : Type :=
| NameError (name : string)
| KeyError (key : string)
| ZeroDivisionError
| LibraryError (msg : string).

Inductive result (A : Type) : Type :=
| Ok (a : A)
| Raise (e : exn).
Arguments Ok {A} a.
Arguments Raise {A} e.

#[global] Instance result_ret : MRet result := fun _ a => Ok a.
#[global] Instance result_bind : MBind result := fun _ _ f m =>
  match m with
  | Ok a => f a
  | Raise e => Raise e
  end.
#[global] Instance result_fmap : FMap result := fun _ _ f m =>
  match m with
  | Ok a => Ok (f a)
  | Raise e => Raise e
  end.

(** [try: body / except: handler] with a bare [except], which catches every
    exception the body raises. *)
Definition try_except {A : Type} (body : result A) (handler : A) : A :=
  match body with
  | Ok a => a
  | Raise _ => handler
  end.

Definition is_ok {A : Type} (r : result A) : bool :=
  match r with
  | Ok _ => true
  | Raise _ => false
  end.

(** A module namespace is the list of the names bound in it.  Reading a
    name that is bound neither there nor among the builtins raises
    [NameError]; the builtins hold no module name, so for the names looked
    up below the module namespace decides. *)
Definition namespace : Type := list string.

Definition resolve (ns : namespace) (name : string) : result unit :=
  if bool_decide (name ∈ ns) then Ok tt else Raise (NameError name).

End Py.
Import Py.

(** ** Cells of a pandas frame *)

Section Cells.
(** [flt] stands for the floating-point payload of numeric cells; nothing
    below computes with it. *)
Context {flt : Type}.

Inductive cell : Type :=
| CStr (s : string)
| CInt (z : Z)
| CFloat (x : flt)
| CNaN.

Definition is_null (c : cell) : bool :=
  match c with
  | CNaN => true
  | _ => false
  end.
End Cells.
Arguments cell : clear implicits.

#[global] Instance cell_eq_dec {flt : Type} `{EqDecision flt} : EqDecision (cell flt).
Proof. solve_decision. Defined.

(** What the frames take from numpy and pandas as given: the conversion
    of an int64 to a float64, and the check that [merge] makes on its two key
    columns before it joins ([_maybe_coerce_merge_keys]), which raises
    [ValueError] when their dtypes cannot be compared, an object column of
    strings against a float64 column for one. *)
Class Pandas (flt : Type) : Type := {
  float_of_int : Z → flt;
  coerce_merge_keys : list (cell flt) → list (cell flt) → result unit
}.

(** ** pandas frames *)

Module Frame.
Section Frame.
Context {flt : Type} `{EqDecision flt} `{Pandas flt}.

(** A frame is its row count and its columns in order, each a label with
    its data.  Labels may repeat, as in pandas. *)
Definition column : Type := string * list (cell flt).

Record DataFrame : Type := mkDF { nrows : nat; columns : list column }.

(** [pd.DataFrame()] *)
Definition empty_frame : DataFrame := mkDF 0 [].

Definition labels (df : DataFrame) : list string := (columns df).*1.

Fixpoint find_col (c : string) (cols : list column) : option (list (cell flt)) :=
  match cols with
  | [] => None
  | col :: cols' => if bool_decide (col.1 = c) then Some col.2 else find_col c cols'
  end.

(** [df[c]] *)
Definition get_col (df : DataFrame) (c : string) : result (list (cell flt)) :=
  match find_col c (columns df) with
  | Some d => Ok d
  | None => Raise (KeyError c)
  end.

(** [df.drop(columns=c)]: every column labelled [c] goes; [KeyError] when
    there is none. *)
Definition drop_column (c : string) (df : DataFrame) : result DataFrame :=
  if bool_decide (c ∈ labels df)
  then Ok (mkDF (nrows df) (filter (λ col : column, col.1 ≠ c) (columns df)))
  else Raise (KeyError c).

(** [df[c] = data]: replaces the data of the columns labelled [c], or
    appends a new last column. *)
Definition assign (df : DataFrame) (c : string) (data : list (cell flt)) : DataFrame :=
  if bool_decide (c ∈ labels df)
  then mkDF (nrows df)
         ((λ col : column, if bool_decide (col.1 = c) then (c, data) else col)
            <$> columns df)
  else mkDF (nrows df) (columns df ++ [(c, data)]).

(** [df[c] = v] for a scalar [v], broadcast over the rows. *)
Definition assign_scalar (df : DataFrame) (c : string) (v : cell flt) : DataFrame :=
  assign df c (replicate (nrows df) v).

(** Columns carry no dtype of their own; it is read off the cells: a
    column that holds a string is an object column, any other column is
    numeric (int64 when every cell is an integer, float64 otherwise). *)
Definition is_str (c : cell flt) : bool :=
  match c with
  | CStr _ => true
  | _ => false
  end.

Definition is_object (d : list (cell flt)) : bool :=
  bool_decide (Exists (λ c, is_str c = true) d).

(** [df.fillna(0)]: the 0 is stored as it is in an object column and as
    0.0 in a numeric column, which is float64 when it holds a null. *)
Definition zero_of (d : list (cell flt)) : cell flt :=
  if is_object d then CInt 0 else CFloat (float_of_int 0).

Definition fill0 (zero c : cell flt) : cell flt := if is_null c then zero else c.

Definition fillna_col (d : list (cell flt)) : list (cell flt) :=
  fill0 (zero_of d) <$> d.

Definition fillna0 (df : DataFrame) : DataFrame :=
  mkDF (nrows df) ((λ col : column, (col.1, fillna_col col.2)) <$> columns df).



(** *** [left.merge(right, on=key, how="left")] *)

(** Positions of [right]'s key column that hold [k], from position [j]. *)
Fixpoint matches_from (j : nat) (k : cell flt) (rk : list (cell flt)) : list nat :=
  match rk with
  | [] => []
  | k' :: rk' =>
      if bool_decide (k' = k) then j :: matches_from (S j) k rk'
      else matches_from (S j) k rk'
  end.

(** The output rows of left row [i] with key [k]: one per match, in the
    order of [right], or a single unmatched row. *)
Definition left_pairs_row (i : nat) (k : cell flt) (rk : list (cell flt))
  : list (nat * option nat) :=
  match matches_from 0 k rk with
  | [] => [(i, None)]
  | js => (λ j, (i, Some j)) <$> js
  end.

Fixpoint left_pairs_from (i : nat) (lk rk : list (cell flt))
  : list (nat * option nat) :=
  match lk with
  | [] => []
  | k :: lk' => left_pairs_row i k rk ++ left_pairs_from (S i) lk' rk
  end.

Definition take_left (ps : list (nat * option nat)) (d : list (cell flt))
  : list (cell flt) :=
  (λ p : nat * option nat, default CNaN (d !! p.1)) <$> ps.

(** A right column has to hold a null as soon as one left row has no
    match; an int64 column is promoted to float64 for that, each integer
    converted, while float64 and object columns stay as they are.  Without
    unmatched row nothing is promoted. *)
Definition promote_cell (c : cell flt) : cell flt :=
  match c with
  | CInt z => CFloat (float_of_int z)
  | _ => c
  end.

Definition promote (d : list (cell flt)) : list (cell flt) :=
  if is_object d then d else promote_cell <$> d.

Definition has_unmatched (ps : list (nat * option nat)) : bool :=
  bool_decide (Exists (λ p : nat * option nat, p.2 = None) ps).

Definition reindexed (ps : list (nat * option nat)) (d : list (cell flt))
  : list (cell flt) :=
  if has_unmatched ps then promote d else d.

Definition take_right (ps : list (nat * option nat)) (d : list (cell flt))
  : list (cell flt) :=
  (λ p : nat * option nat,
     match p.2 with
     | Some j => default CNaN (reindexed ps d !! j)
     | None => CNaN
     end) <$> ps.

(** Two cells that hold the same value, up to the promotion of an
    integer. *)
Definition same_number (x y : cell flt) : Prop := y = x ∨ y = promote_cell x.

(** Labels other than the key that both frames carry get the suffixes
    [_x] (left) and [_y] (right). *)
Definition overlap (key : string) (l r : DataFrame) : list string :=
  filter (λ c, c ∈ labels r ∧ c ≠ key) (labels l).

Definition suffix_if (ov : list string) (sfx c : string) : string :=
  if bool_decide (c ∈ ov) then String.append c sfx else c.

(** The key column of the result is the one of [left], and [right]'s is
    dropped; when [left] has no rows it is the other way round ([len(left) >
    0] in [_get_merge_keys]), so the key then stands among the columns of
    [right].  Every column of a frame has the length of its index, the key
    column included. *)
Definition left_columns (key : string) (lk : list (cell flt)) (l : DataFrame)
  : list column :=
  if bool_decide (lk = []) then filter (λ col : column, col.1 ≠ key) (columns l)
  else columns l.

Definition right_columns (key : string) (lk : list (cell flt)) (r : DataFrame)
  : list column :=
  if bool_decide (lk = []) then columns r
  else filter (λ col : column, col.1 ≠ key) (columns r).

Definition merge_left (key : string) (l r : DataFrame) : result DataFrame :=
  lk ← get_col l key;
  rk ← get_col r key;
  _ ← coerce_merge_keys lk rk;
  let ps := left_pairs_from 0 lk rk in
  let ov := overlap key l r in
  Ok (mkDF (length ps)
        (((λ col : column, (suffix_if ov "_x" col.1, take_left ps col.2))
            <$> left_columns key lk l)
         ++ ((λ col : column, (suffix_if ov "_y" col.1, take_right ps col.2))
               <$> right_columns key lk r))).

(** Two frames that agree on everything but the data of the columns
    labelled [c]. *)
Definition same_except (c : string) (df1 df2 : DataFrame) : Prop :=
  nrows df1 = nrows df2
  ∧ Forall2 (λ c1 c2 : column, c1.1 = c2.1 ∧ (c1.1 ≠ c → c1.2 = c2.2))
      (columns df1) (columns df2).

(** The hosts a frame lists: its [host] column, none when it has no such
    column. *)
Definition hosts_of (df : DataFrame) : list (cell flt) :=
  default [] (find_col "host" (columns df)).

(** The cell of row [i] in the column labelled [c]. *)
Definition cell_at (df : DataFrame) (c : string) (i : nat) : option (cell flt) :=
  d ← find_col c (columns df); d !! i.
End Frame.
Arguments DataFrame : clear implicits.
Arguments column : clear implicits.
End Frame.
Import Frame.

(** ** The graph notebook: names bound before [prepare_graph_inputdata] runs *)

Module Notebook.

(** Names bound by the code cells of the graph notebook, in execution
    order: cell-1 (imports), cell-3 (input tables), cell-5 (imports),
    cell-6 (the three functions), cell-8 up to the call. *)
Definition cell_bindings : list (list string) :=
  [ ["pd"; "np"; "datetime"; "os"];
    ["host100"; "per100"; "cisco_1m"; "hist100"; "malhist"];
    ["tldextract"; "GraphDatabase"; "AddNode"; "merge_cisco"];
    ["prepare_graph_inputdata"; "parse_reg_dom"; "isIP"];
    ["logday"; "data_fmt"; "feature_dir"; "graphtmpdir"; "graphimport_rel";
     "logdf"] ].

Definition notebook_globals : namespace := concat cell_bindings.

(** The namespace the notebook would have had with [import ipaddress]. *)
Definition globals_with_ipaddress : namespace :=
  "ipaddress" :: notebook_globals.

Section Functions.
Context {flt : Type}.
(** The two libraries the functions call.  [ip_address] is
    [ipaddress.ip_address] of the Python standard library, [tld_extract]
    is [tldextract.extract]; [registered_domain] reads the attribute of
    the same name of an extraction result. *)
Context {ipaddr ext : Type}.
Variable ip_address : cell flt → result ipaddr.
Variable tld_extract : cell flt → result ext.
Variable registered_domain : ext → string.

(** [ns] is the global namespace of the module the function runs in. *)
Variable ns : namespace.

Definition parse_reg_dom (text : cell flt) : cell flt :=
  try_except
    (_ ← resolve ns "tldextract";
     ext ← tld_extract text;
     if bool_decide (registered_domain ext = "")
     then Ok text
     else Ok (CStr (registered_domain ext)))
    text.

Definition isIP (dom_text : cell flt) : cell flt :=
  try_except
    (_ ← resolve ns "ipaddress";
     _ ← ip_address dom_text;
     Ok (CInt 1))
    (CInt 0).

(** [merge_cisco] comes from [src/temporal_feats.py]; the notebook only
    calls it, so it is a parameter here. *)
Variable merge_cisco : DataFrame flt → DataFrame flt → result (DataFrame flt).

Definition prepare_graph_inputdata (logdf ciscodf : DataFrame flt)
    (logday fqdn_col : string) : result (DataFrame flt) :=
  logdf ← merge_cisco logdf ciscodf;
  let logdf := assign_scalar logdf "logday" (CStr logday) in
  hosts ← get_col logdf fqdn_col;
  let logdf := assign logdf "domain" (parse_reg_dom <$> hosts) in
  hosts ← get_col logdf fqdn_col;
  let logdf := assign logdf "isIP" (isIP <$> hosts) in
  Ok logdf.

(** cell-8: the client column is dropped, the graph input is prepared
    and written under the import directory of the graph database.  The
    file system is a map from paths to the tables stored there. *)
Definition logday : string := "2021-03-30".
Definition data_fpath : string := "dummydata/graphtmp/data_2021-03-30.csv".

Definition graphdf (host100 cisco_1m : DataFrame flt) : result (DataFrame flt) :=
  logdf ← drop_column "id_orig_h" host100;
  prepare_graph_inputdata logdf cisco_1m logday "host".

Definition save_graph_input (fs : gmap string (DataFrame flt))
    (host100 cisco_1m : DataFrame flt) : result (gmap string (DataFrame flt)) :=
  df ← graphdf host100 cisco_1m;
  Ok (<[data_fpath := df]> fs).
End Functions.

Section Assembly.
Context {flt : Type} `{EqDecision flt} `{Pandas flt}.

(** cell-21 *)
Definition features_typs : list string :=
  ["domgraph"; "ipgraph"; "histmal"; "hist"; "fqdn"; "per"; "len2mal"].
Definition drop_col : list string :=
  ["domain"; "id_resp_h"; "true_periods"; "total_maleng"].

(** cell-22, the inner loop: [cols] are the labels the table had when
    the loop started. *)
Fixpoint drop_loop (cols : list string) (tmpfeat : DataFrame flt)
  : result (DataFrame flt) :=
  match cols with
  | [] => Ok tmpfeat
  | col :: cols' =>
      if bool_decide (col ∈ drop_col)
      then tmpfeat' ← drop_column col tmpfeat; drop_loop cols' tmpfeat'
      else drop_loop cols' tmpfeat
  end.

Definition drop_scaffold (tmpfeat : DataFrame flt) : result (DataFrame flt) :=
  drop_loop (labels tmpfeat) tmpfeat.

(** cell-22, the outer loop over the feature tables as read from their
    parquet files, in the order of [features_typs]. *)
Fixpoint assemble_loop (datadf : DataFrame flt) (feats : list (DataFrame flt))
  : result (DataFrame flt) :=
  match feats with
  | [] => Ok datadf
  | raw :: feats' =>
      tmpfeat ← drop_scaffold (fillna0 raw);
      if bool_decide (length (columns datadf) = 0)
      then assemble_loop tmpfeat feats'
      else datadf' ← merge_left "host" datadf tmpfeat;
           assemble_loop datadf' feats'
  end.

Definition assemble (feats : list (DataFrame flt)) : result (DataFrame flt) :=
  assemble_loop empty_frame feats.





End Assembly.

(** The calls of the notebook from cell-12 on, in program order. *)
Inductive pass : Type :=
| AddNodes | UpdateLabels | UpdateDomMalFeats | UpdateIpMalFeats
| DomscoreToCsv | IpscoreToCsv | CloseDb
| GenDomGraphscore | GenIpGraphscore | GenLen2malScore
| AssembleFeatures.

#[global] Instance pass_eq_dec : EqDecision pass.
Proof. solve_decision. Defined.

Definition notebook_program : list pass :=
  [ AddNodes; UpdateLabels; UpdateDomMalFeats; UpdateIpMalFeats;  (* cell-12 *)
    DomscoreToCsv; IpscoreToCsv;                                  (* cell-13 *)
    CloseDb;                                                      (* cell-14 *)
    GenDomGraphscore;                                             (* cell-17 *)
    GenIpGraphscore;                                              (* cell-18 *)
    GenLen2malScore;                                              (* cell-19 *)
    AssembleFeatures ].                                           (* cell-22 *)

Section Run.
(** The world the calls act on (graph database, files) and what each call
    does to it; a call that raises stops the run. *)
Context {world : Type}.
Variable perform : pass → world → result world.

(** Runs the calls in order and returns the calls that were started,
    oldest first, with the final outcome. *)
Fixpoint run (prog : list pass) (w : world) : list pass * result world :=
  match prog with
  | [] => ([], Ok w)
  | p :: prog' =>
      match perform p w with
      | Ok w' => let '(tr, r) := run prog' w' in (p :: tr, r)
      | Raise e => ([p], Raise e)
      end
  end.

Definition run_notebook (w : world) : list pass * result world :=
  run notebook_program w.

Definition notebook_trace (w : world) : list pass := (run_notebook w).1.
End Run.

(** Every occurrence of [b] in the trace comes after an occurrence of [a]. *)
Definition always_after (a b : pass) (tr : list pass) : Prop :=
  ∀ j, tr !! j = Some b → ∃ i, (i < j)%nat ∧ tr !! i = Some a.

End Notebook.
Import Notebook.

(** ** The graph store and its passes *)

Module GraphStore.

(** Modelled from the spec: the FQDN node of section 3 (DATA MODEL).  The
    class [AddNode] of [src/addnode.py], whose methods the notebook calls,
    is not among the sources.  The engagement score is an integer, as the
    recorded [sumMalEng] column is; [popularity] and the aggregates over
    it play no part below and are left out. *)
Record FqdnAttrs : Type := mkFqdn {
  node_logday : string;
  node_isIP : bool;
  isMalicious : bool;
  malEngagement : Z
}.

(** Modelled from the spec: the derived attributes of a Domain node
    (section 4.3, Domain pass), without the min/max/avg and Cisco
    families, which the spec leaves open on an empty neighbourhood. *)
Record DomainAgg : Type := mkDomainAgg {
  cntFQDN : nat;
  cntIP : nat;
  cntMalFQDNs : nat;
  sumMalEng : Z;
  malFQDN_ratio : Qc;
  malEng_ratio : Qc
}.

(** Modelled from the spec: the derived attributes of an IP node
    (section 4.3, IP pass): distinct domains and malicious domains touching
    the IP, their engagement, and the ratios. *)
Record IpAgg : Type := mkIpAgg {
  ipDom : nat;
  ipMalDom : nat;
  ipDomMalEng : Z;
  ipMalDomRatio : Qc;
  ipDomMalEngRatio : Qc
}.

(** Modelled from the spec: the property graph of section 3.  Nodes are
    keyed by their natural key; a Domain or IP node holds its aggregates
    once a pass has computed them; [belongs_to] holds the FQDN → Domain
    edges and [resolves_to] the FQDN → IP edges. *)
Record Graph : Type := mkGraph {
  fqdns : gmap string FqdnAttrs;
  domains : gmap string (option DomainAgg);
  ips : gmap string (option IpAgg);
  belongs_to : gset (string * string);
  resolves_to : gset (string * string)
}.

Definition empty_graph : Graph := mkGraph ∅ ∅ ∅ ∅ ∅.

Definition node_count (g : Graph) : nat :=
  (size (fqdns g) + size (domains g) + size (ips g))%nat.
Definition edge_count (g : Graph) : nat :=
  (size (belongs_to g) + size (resolves_to g))%nat.

(** *** GraphStore (section 4.1) *)

(** Modelled from the spec: a row of [upsert_batch],
    [(host, server_ip, registered_domain, isIP, logday)]; a malformed row
    has no host. *)
Record Row : Type := mkRow {
  row_host : option string;
  row_server_ip : string;
  row_registered_domain : string;
  row_isIP : bool;
  row_logday : string
}.

Definition fresh_fqdn : FqdnAttrs := mkFqdn "" false false 0.

(** The attribute merge of an observation: the row sets [logday] and
    [isIP], the label attributes stay. *)
Definition observe (r : Row) (a : FqdnAttrs) : FqdnAttrs :=
  mkFqdn (row_logday r) (row_isIP r) (isMalicious a) (malEngagement a).

(** Upsert of a node without attributes of its own: created without
    aggregates, or kept as it is. *)
Definition touch {A : Type} (o : option (option A)) : option (option A) :=
  Some (default None o).

(** Modelled from the spec: [AddNode.add_nodes] is missing; section 4.1
    has "For each row: upsert FQDN node with latest logday; if isIP is false, upsert Domain node from
    registered_domain and create/merge a BELONGS_TO edge; upsert IP node
    from server_ip and create/merge a RESOLVES_TO edge"; a row without
    host is skipped. *)
Definition upsert_row (r : Row) (g : Graph) : Graph :=
  match row_host r with
  | None => g
  | Some h =>
      mkGraph
        (<[h := observe r (default fresh_fqdn (fqdns g !! h))]> (fqdns g))
        (if row_isIP r then domains g
         else partial_alter touch (row_registered_domain r) (domains g))
        (partial_alter touch (row_server_ip r) (ips g))
        (if row_isIP r then belongs_to g
         else {[ (h, row_registered_domain r) ]} ∪ belongs_to g)
        ({[ (h, row_server_ip r) ]} ∪ resolves_to g)
  end.

Definition upsert_rows (rows : list Row) (g : Graph) : Graph :=
  foldl (λ g r, upsert_row r g) g rows.

(** What a batch touches: the last row of each host, and the Domain
    nodes, IP nodes and edges of its rows. *)
Fixpoint last_obs (h : string) (rows : list Row) : option Row :=
  match rows with
  | [] => None
  | r :: rows' =>
      match last_obs h rows' with
      | Some r' => Some r'
      | None => if bool_decide (row_host r = Some h) then Some r else None
      end
  end.

Definition row_domain (r : Row) : option string :=
  match row_host r with
  | Some _ => if row_isIP r then None else Some (row_registered_domain r)
  | None => None
  end.

Definition row_ip (r : Row) : option string :=
  match row_host r with
  | Some _ => Some (row_server_ip r)
  | None => None
  end.

Definition row_belongs (r : Row) : option (string * string) :=
  match row_host r with
  | Some h => if row_isIP r then None else Some (h, row_registered_domain r)
  | None => None
  end.

Definition row_resolves (r : Row) : option (string * string) :=
  match row_host r with
  | Some h => Some (h, row_server_ip r)
  | None => None
  end.

Record UpsertReport : Type := mkReport {
  rows_applied : nat;
  ingestion_errors : nat
}.

Definition has_host (r : Row) : bool :=
  match row_host r with Some _ => true | None => false end.

(** Modelled from the spec: [AddNode.add_nodes] is missing;
    [upsert_batch(rows)] of section 4.1, with the counts it returns. *)
Definition upsert_batch (rows : list Row) (g : Graph) : Graph * UpsertReport :=
  (upsert_rows rows g,
   mkReport (length (filter (λ r, has_host r = true) rows))
            (length (filter (λ r, has_host r = false) rows))).

(** *** LabelPropagator (section 4.2) *)

Definition mark (e : Z) (a : FqdnAttrs) : FqdnAttrs :=
  mkFqdn (node_logday a) (node_isIP a) true (Z.max (malEngagement a) e).

Definition with_fqdns (m : gmap string FqdnAttrs) (g : Graph) : Graph :=
  mkGraph m (domains g) (ips g) (belongs_to g) (resolves_to g).

(** Modelled from the spec: [AddNode.update_labels] is missing; section
    4.2 has "set isMalicious = true; set malEngagement = max(existing,
    incoming)".  The section says both "find
    or create the FQDN node by key" and "hosts in the malicious list absent
    from the graph are skipped"; [create_missing] selects between the
    two. *)
Definition label_row (create_missing : bool) (g : Graph) (row : string * Z) : Graph :=
  match fqdns g !! row.1 with
  | Some a => with_fqdns (<[row.1 := mark row.2 a]> (fqdns g)) g
  | None =>
      if create_missing
      then with_fqdns (<[row.1 := mark row.2 fresh_fqdn]> (fqdns g)) g
      else g
  end.

Definition label_updates (create_missing : bool) (g : Graph) (row : string * Z) : bool :=
  create_missing || bool_decide (is_Some (fqdns g !! row.1)).

(** Modelled from the spec: [AddNode.update_labels] is missing;
    [apply_malicious_history(malicious_rows)] of section 4.2, returning the
    graph and the number of FQDN nodes updated. *)
Definition apply_malicious_history (create_missing : bool)
    (malicious_rows : list (string * Z)) (g : Graph) : Graph * nat :=
  (foldl (label_row create_missing) g malicious_rows,
   length (remove_dups
             (filter (λ row, label_updates create_missing g row = true)
                malicious_rows).*1)).

(** *** NeighborAggregator (section 4.3) *)

(** Sources of the edges into [target], and targets of the edges out of
    [source]. *)
Definition members_of (edges : gset (string * string)) (target : string) : list string :=
  (filter (λ e : string * string, e.2 = target) (elements edges)).*1.

Definition targets_of (edges : gset (string * string)) (source : string) : list string :=
  (filter (λ e : string * string, e.1 = source) (elements edges)).*2.

Definition fqdn_malicious (g : Graph) (f : string) : bool :=
  match fqdns g !! f with
  | Some a => isMalicious a
  | None => false
  end.

Definition fqdn_engagement (g : Graph) (f : string) : Z :=
  match fqdns g !! f with
  | Some a => malEngagement a
  | None => 0
  end.

Definition sum_Z (l : list Z) : Z := foldr Z.add 0%Z l.

(** Division as the runtime has it: a zero divisor is an error. *)
Definition divide (a b : Qc) : result Qc :=
  if decide (b = 0%Qc) then Raise ZeroDivisionError else Ok (a / b)%Qc.

(** Modelled from the spec: the ratios of [AddNode.update_domMal_feats]
    and [AddNode.update_ipMal_feats], which are missing; section 4.3 has
    "malFQDN_ratio = cntMalFQDNs / cntFQDN (0 when cntFQDN = 0, never
    divide-by-zero fault)", the zero-guard shared by every ratio
    aggregate. *)
Definition ratio (num : Z) (cnt : nat) : result Qc :=
  if decide (cnt = 0%nat) then Ok 0%Qc
  else divide (Qc_of_Z num) (Qc_of_Z (Z.of_nat cnt)).

(** Modelled from the spec: [AddNode.update_domMal_feats] is missing; the
    Domain pass of section 4.3 on one Domain node [d], over its neighbour
    FQDNs F(D) and their IPs I(D). *)
Definition aggregate_domain (g : Graph) (d : string) : result DomainAgg :=
  let F := members_of (belongs_to g) d in
  let I := remove_dups (F ≫= targets_of (resolves_to g)) in
  let mal := filter (λ f, fqdn_malicious g f = true) F in
  let eng := sum_Z (fqdn_engagement g <$> F) in
  r1 ← ratio (Z.of_nat (length mal)) (length F);
  r2 ← ratio eng (length F);
  Ok (mkDomainAgg (length F) (length I) (length mal) eng r1 r2).

Definition domain_malicious (g : Graph) (d : string) : bool :=
  bool_decide (Exists (λ f, fqdn_malicious g f = true) (members_of (belongs_to g) d)).

Definition domain_engagement (g : Graph) (d : string) : Z :=
  sum_Z (fqdn_engagement g <$> members_of (belongs_to g) d).

(** Modelled from the spec: [AddNode.update_ipMal_feats] is missing; the
    IP pass of section 4.3 on one IP node [i], over the distinct Domains of
    the FQDNs that resolve to it. *)
Definition aggregate_ip (g : Graph) (i : string) : result IpAgg :=
  let F := members_of (resolves_to g) i in
  let D := remove_dups (F ≫= targets_of (belongs_to g)) in
  let malD := filter (λ d, domain_malicious g d = true) D in
  let eng := sum_Z (domain_engagement g <$> D) in
  r1 ← ratio (Z.of_nat (length malD)) (length D);
  r2 ← ratio eng (length D);
  Ok (mkIpAgg (length D) (length malD) eng r1 r2).

(** Recomputes the aggregates of every node of [nodes]. *)
Definition store_aggregates {A : Type} (agg : string → result A)
    (nodes : gmap string (option A)) : result (gmap string (option A)) :=
  foldr (λ k acc, m ← acc; a ← agg k; Ok (<[k := Some a]> m))
    (Ok nodes) (elements (dom nodes)).

(** Modelled from the spec: [AddNode.update_domMal_feats] and
    [AddNode.update_ipMal_feats] are missing; the two passes of section 4.3,
    each a full recomputation from the current neighbours. *)
Definition domain_pass (g : Graph) : result Graph :=
  doms ← store_aggregates (aggregate_domain g) (domains g);
  Ok (mkGraph (fqdns g) doms (ips g) (belongs_to g) (resolves_to g)).

Definition ip_pass (g : Graph) : result Graph :=
  nodes ← store_aggregates (aggregate_ip g) (ips g);
  Ok (mkGraph (fqdns g) (domains g) nodes (belongs_to g) (resolves_to g)).

(** *** The passes as steps on the store *)

(** Modelled from the spec: the methods of [AddNode] and
    [gen_len2mal_score] are missing; the passes of sections 4.2 to 4.4 as
    operations on the store.  Distance scoring (section 4.4) computes its
    scores from the graph and writes nothing to it. *)
Inductive op : Type :=
| OpLabels (malicious_rows : list (string * Z))
| OpDomainPass
| OpIpPass
| OpDistance (target_fqdns : list string).

Definition step (create_missing : bool) (g : Graph) (o : op) : result Graph :=
  match o with
  | OpLabels rows => Ok (apply_malicious_history create_missing rows g).1
  | OpDomainPass => domain_pass g
  | OpIpPass => ip_pass g
  | OpDistance _ => Ok g
  end.

Fixpoint steps (create_missing : bool) (g : Graph) (ops : list op) : result Graph :=
  match ops with
  | [] => Ok g
  | o :: ops' => g' ← step create_missing g o; steps create_missing g' ops'
  end.

(** The label of every FQDN node of [g] is kept in [g']: a malicious node
    stays malicious and no engagement score is lower. *)
Definition label_kept (g g' : Graph) : Prop :=
  ∀ h a, fqdns g !! h = Some a →
    ∃ a', fqdns g' !! h = Some a'
          ∧ (isMalicious a = true → isMalicious a' = true)
          ∧ (malEngagement a ≤ malEngagement a')%Z.

(** *** The end-to-end example of section 8 *)

Definition example_rows : list Row :=
  [ mkRow (Some "a.example.com") "1.1.1.1" "example.com" false "2021-03-30";
    mkRow (Some "b.evil.com") "1.1.1.1" "evil.com" false "2021-03-30" ].

Definition example_graph : Graph :=
  (apply_malicious_history false [("b.evil.com", 5%Z)]
     (upsert_batch example_rows empty_graph).1).1.

(** A later, lower report about the same host, between the passes. *)
Definition example_ops : list op :=
  [ OpLabels [("b.evil.com", 2%Z)]; OpDomainPass; OpIpPass;
    OpDistance ["a.example.com"; "b.evil.com"] ].

(** A Domain node that has lost its FQDNs (pruning is done outside). *)
Definition orphan_graph : Graph :=
  mkGraph ∅ {[ "parked.example" := None ]} ∅ ∅ ∅.

End GraphStore.

(** ** Small concrete libraries, used to run the definitions on examples *)

Module Sample.

Definition dot : Ascii.ascii := Ascii.ascii_of_nat 46.

Fixpoint split_on (sep : Ascii.ascii) (s : string) : list string :=
  match s with
  | EmptyString => [EmptyString]
  | String c s' =>
      if Ascii.eqb c sep then EmptyString :: split_on sep s'
      else match split_on sep s' with
           | [] => [String c EmptyString]
           | w :: ws => String c w :: ws
           end
  end.

Definition digit_val (c : Ascii.ascii) : option nat :=
  let n := Ascii.nat_of_ascii c in
  if (48 <=? n)%nat && (n <=? 57)%nat then Some (n - 48)%nat else None.

Fixpoint decimal_val (acc : nat) (s : string) : option nat :=
  match s with
  | EmptyString => Some acc
  | String c s' => d ← digit_val c; decimal_val (10 * acc + d) s'
  end.

Definition parse_octet (s : string) : option nat :=
  if bool_decide (s = "") || (3 <? String.length s)%nat then None
  else n ← decimal_val 0 s; if (n <=? 255)%nat then Some n else None.

(** A reader of dotted-quad IPv4 texts, standing in for
    [ipaddress.ip_address] on the examples. *)
Definition ip_address (c : cell Z) : result (list nat) :=
  match c with
  | CStr s =>
      match mapM parse_octet (split_on dot s) with
      | Some [a; b; c; d] => Ok [a; b; c; d]
      | _ => Raise (LibraryError "ValueError")
      end
  | _ => Raise (LibraryError "ValueError")
  end.

Definition public_suffixes : list string := ["com"; "org"; "net"; "edu"; "cn"].

Definition join_dot (a b : string) : string := String.append a (String.append "." b).

(** The registered domain of a dotted name over [public_suffixes]: the
    label before the suffix and the suffix, or the empty string.  It stands
    in for [tldextract.extract] on the examples. *)
Definition registered_of (s : string) : string :=
  match reverse (split_on dot s) with
  | tld :: sld :: _ =>
      if bool_decide (tld ∈ public_suffixes) && negb (bool_decide (sld = ""))
      then join_dot sld tld else ""
  | _ => ""
  end.

Definition tld_extract (c : cell Z) : result string :=
  match c with
  | CStr s => Ok (registered_of s)
  | _ => Raise (LibraryError "TypeError")
  end.

(** Floats are integers on the examples, and the check of the key
    columns refuses an object column against a numeric one when both have
    rows. *)
#[global] Instance pandas : Pandas Z := {
  float_of_int := id;
  coerce_merge_keys lk rk :=
    if bool_decide (lk = [] ∨ rk = [] ∨ is_object lk = is_object rk)
    then Ok tt else Raise (LibraryError "ValueError")
}.

(** A popularity merge: the log rows, each with the columns of the
    popularity table for its host. *)
Definition merge_cisco (logdf ciscodf : DataFrame Z) : result (DataFrame Z) :=
  merge_left "host" logdf ciscodf.

Definition cisco : DataFrame Z :=
  mkDF 2 [("rank", [CInt 1; CInt 2]);
          ("host", [CStr "google.com"; CStr "a.example.com"])].

(** Two daily batches that differ in the client column only. *)
Definition batch1 : DataFrame Z :=
  mkDF 2 [("host", [CStr "104.192.108.134"; CStr "a.example.com"]);
          ("id_resp_h", [CStr "104.192.108.134"; CStr "1.1.1.1"]);
          ("id_resp_p", [CInt 80; CInt 443]);
          ("id_orig_h", [CStr "10.0.0.1"; CStr "10.0.0.2"])].

Definition batch2 : DataFrame Z :=
  mkDF 2 [("host", [CStr "104.192.108.134"; CStr "a.example.com"]);
          ("id_resp_h", [CStr "104.192.108.134"; CStr "1.1.1.1"]);
          ("id_resp_p", [CInt 80; CInt 443]);
          ("id_orig_h", [CStr "10.9.9.9"; CStr "10.8.8.8"])].

(** Two feature tables with different hosts; the first has a null. *)
Definition feat_domgraph : DataFrame Z :=
  mkDF 1 [("host", [CStr "a.example.com"]);
          ("domain", [CStr "example.com"]);
          ("cntFQDN", [CInt 1]);
          ("maxCisco", [CNaN])].

Definition feat_ipgraph : DataFrame Z :=
  mkDF 1 [("host", [CStr "b.evil.com"]); ("sum_ipDom", [CInt 2])].

End Sample.

(** ** The run recorded in the graph notebook *)

Module Recorded.

(** The column labels cell-22 printed for each feature table it read, in the
    order of [features_typs]. *)
Definition columns_domgraph : list string :=
  [ "host"; "domain"; "cntMalFQDNs"; "cntIP"; "cntFQDN"; "sumMalEng";
    "maxMalEng"; "avgMalEng"; "minMalEng"; "maxCisco"; "minCisco";
    "avgCisco"; "sumMal"; "maxMal"; "minMal"; "avgMal"; "malFQDN_ratio";
    "malEng_ratio" ].

Definition columns_ipgraph : list string :=
  [ "host"; "sum_ipDom"; "sum_ipMalDom"; "avg_ipDom"; "avg_ipMalDom";
    "max_ipDom"; "max_ipMalDom"; "min_ipDom"; "min_ipMalDom";
    "max_ipMalDomRatio"; "max_ipDomMalEngRatio"; "min_ipMalDomRatio";
    "min_ipDomMalEngRatio"; "avg_ipMalDomRatio"; "avg_ipDomMalEngRatio";
    "sum_ipDomMalEng"; "max_ipDomMalEng"; "min_ipDomMalEng";
    "avg_ipDomMalEng" ].

Definition columns_histmal : list string :=
  [ "host"; "hist_malscore_min_period"; "hist_malscore_max_period";
    "hist_malscore_mean_period"; "hist_malscore_median_period";
    "hist_malscore_ratio_period" ].

Definition columns_hist : list string :=
  [ "host"; "freq"; "occ" ].

Definition columns_fqdn : list string :=
  [ "host"; "psd_ratio"; "dom_illegal"; "dom_sld_entropy"; "subdom_entropy";
    "dom_entropy"; "fqdn_entropy"; "dom_tldcnt"; "dom_sldcnt"; "dom_subcnt";
    "dom_level"; "dom_length" ].

Definition columns_per : list string :=
  [ "host"; "mean_fqdn_period"; "max_fqdn_period"; "min_fqdn_period";
    "std_fqdn_period"; "min_per"; "max_per"; "std_per"; "mean_per";
    "cisco_min_period"; "cisco_max_period"; "cisco_mean_period";
    "cisco_median_period"; "cisco_ratio_period"; "cisco_score";
    "fqdn_popularity" ].

Definition columns_len2mal : list string :=
  [ "host"; "minlen2malFQDN"; "avglen2malFQDN"; "maxlen2malFQDN" ].

(** The labels of [datadf] that cell-23 printed. *)
Definition datadf_columns : list string :=
  [ "host"; "cntMalFQDNs"; "cntIP"; "cntFQDN"; "sumMalEng"; "maxMalEng";
    "avgMalEng"; "minMalEng"; "maxCisco"; "minCisco"; "avgCisco"; "sumMal";
    "maxMal"; "minMal"; "avgMal"; "malFQDN_ratio"; "malEng_ratio";
    "sum_ipDom"; "sum_ipMalDom"; "avg_ipDom"; "avg_ipMalDom"; "max_ipDom";
    "max_ipMalDom"; "min_ipDom"; "min_ipMalDom"; "max_ipMalDomRatio";
    "max_ipDomMalEngRatio"; "min_ipMalDomRatio"; "min_ipDomMalEngRatio";
    "avg_ipMalDomRatio"; "avg_ipDomMalEngRatio"; "sum_ipDomMalEng";
    "max_ipDomMalEng"; "min_ipDomMalEng"; "avg_ipDomMalEng";
    "hist_malscore_min_period"; "hist_malscore_max_period";
    "hist_malscore_mean_period"; "hist_malscore_median_period";
    "hist_malscore_ratio_period"; "freq"; "occ"; "psd_ratio"; "dom_illegal";
    "dom_sld_entropy"; "subdom_entropy"; "dom_entropy"; "fqdn_entropy";
    "dom_tldcnt"; "dom_sldcnt"; "dom_subcnt"; "dom_level"; "dom_length";
    "mean_fqdn_period"; "max_fqdn_period"; "min_fqdn_period";
    "std_fqdn_period"; "min_per"; "max_per"; "std_per"; "mean_per";
    "cisco_min_period"; "cisco_max_period"; "cisco_mean_period";
    "cisco_median_period"; "cisco_ratio_period"; "cisco_score";
    "fqdn_popularity"; "minlen2malFQDN"; "avglen2malFQDN"; "maxlen2malFQDN" ].

(** A table with the given labels and one row, the host of row 4 of the
    recorded [datadf] with a 0 in every other column. *)
Definition table_of (ls : list string) : DataFrame Z :=
  mkDF 1 ((λ c, (c, [if bool_decide (c = "host") then CStr "syzs.qq.com"
                     else CInt 0])) <$> ls).

Definition feats : list (DataFrame Z) :=
  table_of <$> [ columns_domgraph; columns_ipgraph; columns_histmal; columns_hist; columns_fqdn; columns_per; columns_len2mal ].

(** The same tables without rows. *)
Definition empty_table_of (ls : list string) : DataFrame Z :=
  mkDF 0 ((λ c, (c, [])) <$> ls).

Definition empty_feats : list (DataFrame Z) :=
  empty_table_of <$> [ columns_domgraph; columns_ipgraph; columns_histmal; columns_hist; columns_fqdn; columns_per; columns_len2mal ].

End Recorded.

(** ** Helpers of the statements below *)

(** The last two characters of a string (all of it when it is shorter). *)
Fixpoint last2 (s : string) : string :=
  match s with
  | EmptyString => EmptyString
  | String a s' =>
      match s' with
      | EmptyString => s
      | String b s'' =>
          match s'' with
          | EmptyString => s
          | String _ _ => last2 s'
          end
      end
  end.

(** The labels of a table that cell-22 drops. *)
Definition scaffold_labels {flt : Type} (df : DataFrame flt) : list string :=
  filter (λ c, c ∈ drop_col) (labels df).

(** The number of rows of a key column that hold [k]. *)
Definition occurrences {flt : Type} `{EqDecision flt} (k : cell flt)
    (keys : list (cell flt)) : nat :=
  length (filter (λ k', k' = k) keys).

(** The labels cell-22 keeps of a table, and those it adds to the table it
    joins: the host column of the joined table is not repeated. *)
Definition kept_labels {flt : Type} (df : DataFrame flt) : list string :=
  filter (λ c, c ∉ drop_col) (labels df).

Definition joined_labels {flt : Type} (df : DataFrame flt) : list string :=
  filter (λ c, (c ∉ drop_col) ∧ c ≠ "host") (labels df).

(** The calls on the database handle that come before [dbhandler.close()]. *)
Definition db_calls : list pass :=
  [AddNodes; UpdateLabels; UpdateDomMalFeats; UpdateIpMalFeats;
   DomscoreToCsv; IpscoreToCsv].

(** Two small tables to join; the right one lists a host twice and
    misses a host of the left one, so its integer column is promoted. *)
Module JoinSample.

Definition left : DataFrame Z :=
  mkDF 2 [("host", [CStr "a.example.com"; CStr "b.evil.com"]);
          ("freq", [CInt 1; CInt 2])].

Definition right : DataFrame Z :=
  mkDF 3 [("host", [CStr "a.example.com"; CStr "a.example.com"; CStr "c.org"]);
          ("occ", [CInt 10; CInt 11; CInt 12])].

Definition joined : DataFrame Z :=
  mkDF 3 [("host", [CStr "a.example.com"; CStr "a.example.com"; CStr "b.evil.com"]);
          ("freq", [CInt 1; CInt 1; CInt 2]);
          ("occ", [CFloat 10%Z; CFloat 11%Z; CNaN])].




(** The first table of the assembly sample with other data in the
    scaffolding column [domain]. *)
Definition feat_domgraph' : DataFrame Z :=
  mkDF 1 [("host", [CStr "a.example.com"]);
          ("domain", [CStr "other.org"]);
          ("cntFQDN", [CInt 1]);
          ("maxCisco", [CNaN])].

End JoinSample.

(* ===================================================================== *)
(** * Part II: theorems *)
(* ===================================================================== *)

Section NotebookFunctions.
Context {flt ipaddr ext : Type}.
Variable ip_address : cell flt → result ipaddr.
Variable tld_extract : cell flt → result ext.
Variable registered_domain : ext → string.

Lemma resolve_bound ns name : name ∈ ns → resolve ns name = Ok tt.
Proof. intros H. unfold resolve. by rewrite bool_decide_eq_true_2. Qed.

Lemma resolve_unbound ns name :
  name ∉ ns → resolve ns name = Raise (NameError name).
Proof. intros H. unfold resolve. by rewrite bool_decide_eq_false_2. Qed.

Lemma ipaddress_unbound : "ipaddress" ∉ notebook_globals.
Proof. apply (bool_decide_unpack _). by vm_compute. Qed.

Lemma tldextract_bound : "tldextract" ∈ notebook_globals.
Proof. apply (bool_decide_unpack _). by vm_compute. Qed.

(** With the module bound, [isIP] answers 1 exactly on the texts the
    library accepts: the function body itself is the intended check. *)
Lemma isIP_with_import (dom_text : cell flt) :
  isIP ip_address globals_with_ipaddress dom_text
  = if is_ok (ip_address dom_text) then CInt 1 else CInt 0.
Proof.
  unfold isIP. rewrite resolve_bound by (left).
  simpl. by destruct (ip_address dom_text).
Qed.

(** In the notebook's own namespace the name [ipaddress] is unbound, the
    [NameError] is swallowed by the bare [except], and the answer is 0
    whatever the text. *)
Lemma isIP_notebook_always_0 (dom_text : cell flt) :
  isIP ip_address notebook_globals dom_text = CInt 0.
Proof.
  unfold isIP. by rewrite resolve_unbound by apply ipaddress_unbound.
Qed.

(** C7. The Domain key of a host is the registered domain that
    [tldextract] reports for it, and the host text itself when the
    extraction raises or reports an empty registered domain. *)
Theorem parse_reg_dom_key (text : cell flt) :
  (∀ x, tld_extract text = Ok x → registered_domain x ≠ "" →
        parse_reg_dom tld_extract registered_domain notebook_globals text
        = CStr (registered_domain x))
  ∧ (∀ x, tld_extract text = Ok x → registered_domain x = "" →
        parse_reg_dom tld_extract registered_domain notebook_globals text
        = text)
  ∧ (∀ e, tld_extract text = Raise e →
        parse_reg_dom tld_extract registered_domain notebook_globals text
        = text).
Proof.
  unfold parse_reg_dom.
  rewrite resolve_bound by apply tldextract_bound. simpl.
  repeat split.
  - intros x -> Hne. simpl. by rewrite bool_decide_eq_false_2.
  - intros x -> Heq. simpl. by rewrite bool_decide_eq_true_2.
  - by intros e ->.
Qed.
End NotebookFunctions.

(** C7, on concrete hosts: a name with a public suffix, a bare IP address
    (empty registered domain) and a value the extractor rejects. *)
Lemma parse_reg_dom_key_witness :
  parse_reg_dom Sample.tld_extract id notebook_globals (CStr "a.example.com")
  = CStr "example.com"
  ∧ parse_reg_dom Sample.tld_extract id notebook_globals (CStr "1.1.1.1")
    = CStr "1.1.1.1"
  ∧ parse_reg_dom Sample.tld_extract id notebook_globals CNaN = CNaN.
Proof.
  destruct (parse_reg_dom_key Sample.tld_extract id (CStr "a.example.com"))
    as (H1 & _ & _).
  destruct (parse_reg_dom_key Sample.tld_extract id (CStr "1.1.1.1"))
    as (_ & H2 & _).
  destruct (parse_reg_dom_key Sample.tld_extract id CNaN) as (_ & _ & H3).
  split; [|split].
  - apply (H1 "example.com"); [reflexivity | discriminate].
  - apply (H2 ""); reflexivity.
  - apply (H3 (LibraryError "TypeError")); reflexivity.
Defined.

(** ** The [isIP] column of the graph input *)

Section GraphInput.
Context {flt ipaddr ext : Type}.
Variable ip_address : cell flt → result ipaddr.
Variable tld_extract : cell flt → result ext.
Variable registered_domain : ext → string.
Variable merge_cisco : DataFrame flt → DataFrame flt → result (DataFrame flt).

Lemma find_col_assign (df : DataFrame flt) c data :
  find_col c (columns (assign df c data)) = Some data.
Proof.
  unfold assign. case_bool_decide as Hin; simpl.
  - unfold labels in Hin. induction (columns df) as [|col cols IH]; simpl.
    + by apply elem_of_nil in Hin.
    + destruct (decide (col.1 = c)) as [Hc|Hc].
      * rewrite !(bool_decide_eq_true_2 _ Hc). simpl.
        by rewrite bool_decide_eq_true_2.
      * rewrite !(bool_decide_eq_false_2 _ Hc). apply IH.
        apply elem_of_cons in Hin as [Hin|Hin]; [congruence | done].
  - unfold labels in Hin. induction (columns df) as [|col cols IH]; simpl.
    + by rewrite bool_decide_eq_true_2.
    + apply not_elem_of_cons in Hin as [Hne Hin].
      rewrite bool_decide_eq_false_2 by congruence. by apply IH.
Qed.

(** Every row of the prepared graph input carries [isIP = 0]. *)
Lemma graphdf_isIP_all_0 host100 cisco_1m out i c :
  graphdf ip_address tld_extract registered_domain notebook_globals
    merge_cisco host100 cisco_1m = Ok out →
  cell_at out "isIP" i = Some c → c = CInt 0.
Proof.
  unfold graphdf, prepare_graph_inputdata.
  destruct (drop_column _ _) as [logdf|]; simpl; [|done].
  destruct (merge_cisco _ _) as [logdf'|]; simpl; [|done].
  destruct (get_col _ _) as [hosts|]; simpl; [|done].
  destruct (get_col _ _) as [hosts'|]; simpl; [|done].
  intros [= <-]. unfold cell_at. rewrite find_col_assign. simpl.
  intros Hc%list_elem_of_lookup_2.
  apply list_elem_of_fmap in Hc as (h & -> & _).
  apply isIP_notebook_always_0.
Qed.
End GraphInput.

(** C1, at a host of the daily batch that is a literal IPv4 address: the
    address parses, [isIP] would answer 1 with the module imported, and the
    notebook answers 0, in the function and in the prepared graph input. *)
Theorem isIP_literal_ip_marked_0 :
  is_ok (Sample.ip_address (CStr "104.192.108.134")) = true
  ∧ isIP Sample.ip_address globals_with_ipaddress (CStr "104.192.108.134") = CInt 1
  ∧ isIP Sample.ip_address notebook_globals (CStr "104.192.108.134") = CInt 0
  ∧ ∃ out,
      graphdf Sample.ip_address Sample.tld_extract id notebook_globals
        Sample.merge_cisco Sample.batch1 Sample.cisco = Ok out
      ∧ cell_at out "host" 0 = Some (CStr "104.192.108.134")
      ∧ cell_at out "isIP" 0 = Some (CInt 0).
Proof.
  split; [reflexivity|]. split; [reflexivity|]. split; [reflexivity|].
  eexists. split; [vm_compute; reflexivity|]. split; reflexivity.
Qed.

(** ** The client column *)

Section ClientColumn.
Context {flt ipaddr ext : Type}.
Variable ip_address : cell flt → result ipaddr.
Variable tld_extract : cell flt → result ext.
Variable registered_domain : ext → string.
Variable merge_cisco : DataFrame flt → DataFrame flt → result (DataFrame flt).

Lemma same_except_labels c (df1 df2 : DataFrame flt) :
  same_except c df1 df2 → labels df1 = labels df2.
Proof.
  intros [_ H]. unfold labels.
  induction H as [|c1 c2 l1 l2 [Hl _] _ IH]; simpl; [done|]. by f_equal.
Qed.

Lemma same_except_filter c (df1 df2 : DataFrame flt) :
  same_except c df1 df2 →
  filter (λ col : column flt, col.1 ≠ c) (columns df1)
  = filter (λ col : column flt, col.1 ≠ c) (columns df2).
Proof.
  intros [_ H].
  induction H as [|[n1 d1] [n2 d2] l1 l2 [Hl Hd] _ IH]; [done|].
  simpl in Hl, Hd. subst n2.
  rewrite !filter_cons. simpl. case_decide as Hn; [|done].
  by rewrite Hd, IH.
Qed.

Lemma drop_column_same_except c (df1 df2 : DataFrame flt) :
  same_except c df1 df2 → drop_column c df1 = drop_column c df2.
Proof.
  intros H. unfold drop_column.
  rewrite (same_except_labels _ _ _ H), (same_except_filter _ _ _ H).
  by destruct H as [-> _].
Qed.

Lemma drop_column_absent c (df df' : DataFrame flt) :
  drop_column c df = Ok df' → c ∉ labels df'.
Proof.
  unfold drop_column. case_bool_decide; [|done]. intros [= <-].
  unfold labels. simpl. rewrite list_elem_of_fmap.
  intros ([c' d] & -> & [Hc _]%list_elem_of_filter). by apply Hc.
Qed.

(** C9. Two daily batches that differ only in the client column
    [id_orig_h] leave the same graph input on disk: the column is dropped
    before the input is prepared, and the table handed to the preparation
    has no such column. *)
Theorem client_column_not_stored fs (batch batch' cisco_1m : DataFrame flt) :
  same_except "id_orig_h" batch batch' →
  save_graph_input ip_address tld_extract registered_domain notebook_globals
    merge_cisco fs batch cisco_1m
  = save_graph_input ip_address tld_extract registered_domain notebook_globals
      merge_cisco fs batch' cisco_1m
  ∧ ∀ logdf, drop_column "id_orig_h" batch = Ok logdf →
             "id_orig_h" ∉ labels logdf.
Proof.
  intros H. split.
  - unfold save_graph_input, graphdf.
    by rewrite (drop_column_same_except _ _ _ H).
  - intros logdf. apply drop_column_absent.
Qed.
End ClientColumn.

Lemma client_column_not_stored_witness :
  Sample.batch1 ≠ Sample.batch2
  ∧ save_graph_input Sample.ip_address Sample.tld_extract id notebook_globals
      Sample.merge_cisco ∅ Sample.batch1 Sample.cisco
    = save_graph_input Sample.ip_address Sample.tld_extract id notebook_globals
        Sample.merge_cisco ∅ Sample.batch2 Sample.cisco.
Proof.
  split; [discriminate|].
  apply (client_column_not_stored Sample.ip_address Sample.tld_extract id
           Sample.merge_cisco ∅ Sample.batch1 Sample.batch2 Sample.cisco).
  split; [reflexivity|].
  repeat (constructor; [split; [reflexivity | simpl; try done]|]).
  constructor.
Defined.

(** ** Left joins and the assembled table *)

Section Joins.
Context {flt : Type} `{EqDecision flt} `{Pandas flt}.
Implicit Types (l r df : DataFrame flt) (cols : list (column flt)).
Implicit Types (lk rk d : list (cell flt)) (k h : cell flt).

Lemma find_col_app c cols cols' :
  find_col c (cols ++ cols')
  = match find_col c cols with Some d => Some d | None => find_col c cols' end.
Proof.
  induction cols as [|col cols IH]; simpl; [done|]. by case_bool_decide.
Qed.

Lemma find_col_relabel (f : string → string) (g : list (cell flt) → list (cell flt))
    c cols :
  (∀ x, f x = c ↔ x = c) →
  find_col c ((λ col : column flt, (f col.1, g col.2)) <$> cols)
  = g <$> find_col c cols.
Proof.
  intros Hf. induction cols as [|col cols IH]; [done|].
  rewrite fmap_cons. cbn [find_col fst snd]. rewrite IH.
  destruct (decide (col.1 = c)) as [Hc|Hc].
  - rewrite !bool_decide_eq_true_2; [done..|by apply Hf].
  - rewrite !bool_decide_eq_false_2; [done..|by rewrite Hf].
Qed.

Lemma find_col_filter_ne c c' cols :
  c ≠ c' →
  find_col c (filter (λ col : column flt, col.1 ≠ c') cols) = find_col c cols.
Proof.
  intros Hne. induction cols as [|col cols IH]; [done|].
  rewrite filter_cons. simpl. case_decide as Hc; simpl.
  - by rewrite IH.
  - rewrite IH. rewrite bool_decide_eq_false_2; [done|congruence].
Qed.


Lemma append_x_ne_host c : String.append c "_x" ≠ "host".
Proof.
  destruct c as [|a1 [|a2 [|a3 [|a4 c]]]]; simpl; try discriminate.
  intros [= _ _ _ _ Hc]. by destruct c.
Qed.

Lemma host_not_overlap l r : "host" ∉ overlap "host" l r.
Proof. unfold overlap. rewrite list_elem_of_filter. by intros [[_ ?] _]. Qed.

Lemma suffix_x_host l r c :
  suffix_if (overlap "host" l r) "_x" c = "host" ↔ c = "host".
Proof.
  unfold suffix_if. case_bool_decide as Hc.
  - split.
    + intros Happ. by apply append_x_ne_host in Happ.
    + intros ->. by apply host_not_overlap in Hc.
  - done.
Qed.

Lemma append_y_ne_host c : String.append c "_y" ≠ "host".
Proof.
  destruct c as [|a1 [|a2 [|a3 [|a4 c]]]]; simpl; try discriminate.
  intros [= _ _ _ _ Hc]. by destruct c.
Qed.

Lemma suffix_y_host l r c :
  suffix_if (overlap "host" l r) "_y" c = "host" ↔ c = "host".
Proof.
  unfold suffix_if. case_bool_decide as Hc.
  - split.
    + intros Happ. by apply append_y_ne_host in Happ.
    + intros ->. by apply host_not_overlap in Hc.
  - done.
Qed.

Lemma find_col_filter_eq c cols :
  find_col c (filter (λ col : column flt, col.1 ≠ c) cols) = None.
Proof.
  induction cols as [|col cols IH]; [done|].
  rewrite filter_cons. case_decide as Hc; [|done].
  cbn [find_col]. by rewrite bool_decide_eq_false_2.
Qed.

(** *** The row pairs of a left join *)

Lemma matches_from_spec j0 k rk j :
  j ∈ matches_from j0 k rk → ∃ j', j = (j0 + j')%nat ∧ rk !! j' = Some k.
Proof.
  revert j0. induction rk as [|k' rk IH]; intros j0; simpl.
  - by intros ?%elem_of_nil.
  - case_bool_decide as Hk.
    + intros [->|Hj]%elem_of_cons.
      * exists 0%nat. split; [lia|]. by subst.
      * apply IH in Hj as (j' & -> & Hj'). exists (S j'). split; [lia|done].
    + intros Hj. apply IH in Hj as (j' & -> & Hj'). exists (S j').
      split; [lia|done].
Qed.

Lemma matches_from_nil j0 k rk : matches_from j0 k rk = [] → k ∉ rk.
Proof.
  revert j0. induction rk as [|k' rk IH]; intros j0; simpl.
  - intros _. apply not_elem_of_nil.
  - case_bool_decide as Hk; [done|].
    intros Hm%IH. apply not_elem_of_cons. split; [congruence|done].
Qed.

Lemma left_pairs_row_fst i k rk :
  Forall (λ p : nat * option nat, p.1 = i) (left_pairs_row i k rk).
Proof.
  unfold left_pairs_row. destruct (matches_from 0 k rk) as [|j js].
  - by repeat constructor.
  - apply Forall_fmap, Forall_true. done.
Qed.

Lemma left_pairs_row_nonempty i k rk : left_pairs_row i k rk ≠ [].
Proof. unfold left_pairs_row. by destruct (matches_from 0 k rk). Qed.

Lemma left_pairs_row_snd i k rk p j :
  p ∈ left_pairs_row i k rk → p.2 = Some j → rk !! j = Some k.
Proof.
  unfold left_pairs_row. destruct (matches_from 0 k rk) as [|j0 js] eqn:Hm.
  - intros ->%list_elem_of_singleton. done.
  - intros (j' & -> & Hj')%list_elem_of_fmap [= ->].
    rewrite <- Hm in Hj'.
    by apply matches_from_spec in Hj' as (j'' & -> & ?).
Qed.

(** The key column of the join lists the keys of the left frame, in
    order, each at least once. *)
Lemma take_left_keys pre lk rk h :
  h ∈ take_left (left_pairs_from (length pre) lk rk) (pre ++ lk) ↔ h ∈ lk.
Proof.
  revert pre. induction lk as [|k lk IH]; intros pre; simpl.
  - unfold take_left. simpl. split; by intros ?%elem_of_nil.
  - unfold take_left in *. rewrite fmap_app, elem_of_app, elem_of_cons.
    specialize (IH (pre ++ [k])).
    rewrite length_app, Nat.add_1_r, <- app_assoc in IH. simpl in IH.
    rewrite IH.
    assert (h ∈ (λ p : nat * option nat, default CNaN ((pre ++ k :: lk) !! p.1))
                  <$> left_pairs_row (length pre) k rk ↔ h = k) as ->; [|done].
    pose proof (left_pairs_row_fst (length pre) k rk) as Hfst.
    pose proof (left_pairs_row_nonempty (length pre) k rk) as Hne.
    assert (∀ p, p ∈ left_pairs_row (length pre) k rk →
              default CNaN ((pre ++ k :: lk) !! p.1) = k) as Hk.
    { intros p Hp. rewrite Forall_forall in Hfst. rewrite (Hfst p Hp).
      by rewrite list_lookup_middle. }
    rewrite list_elem_of_fmap. split.
    + intros (p & -> & Hp). by apply Hk.
    + intros ->. destruct (left_pairs_row (length pre) k rk) as [|p ps]; [done|].
      exists p. split; [symmetry; apply Hk|]; left.
Qed.

(** A joined row whose right position is [Some j] has the key that
    [right] holds at [j]. *)
Lemma left_pairs_matched pre lk rk p j :
  p ∈ left_pairs_from (length pre) lk rk → p.2 = Some j →
  ∃ k, (pre ++ lk) !! p.1 = Some k ∧ rk !! j = Some k.
Proof.
  revert pre. induction lk as [|k lk IH]; intros pre; simpl.
  - by intros ?%elem_of_nil.
  - intros [Hp|Hp]%elem_of_app Hj.
    + exists k. split.
      * pose proof (left_pairs_row_fst (length pre) k rk) as Hfst.
        rewrite Forall_forall in Hfst. rewrite (Hfst p Hp).
        by rewrite list_lookup_middle.
      * by eapply left_pairs_row_snd.
    + specialize (IH (pre ++ [k])).
      rewrite length_app, Nat.add_1_r, <- app_assoc in IH. by apply IH.
Qed.

(** *** One join *)

Lemma merge_left_inv l r out :
  merge_left "host" l r = Ok out →
  ∃ lk rk,
    find_col "host" (columns l) = Some lk
    ∧ find_col "host" (columns r) = Some rk
    ∧ coerce_merge_keys lk rk = Ok tt
    ∧ out = mkDF (length (left_pairs_from 0 lk rk))
        (((λ col : column flt,
             (suffix_if (overlap "host" l r) "_x" col.1,
              take_left (left_pairs_from 0 lk rk) col.2))
            <$> left_columns "host" lk l)
         ++ ((λ col : column flt,
                (suffix_if (overlap "host" l r) "_y" col.1,
                 take_right (left_pairs_from 0 lk rk) col.2))
               <$> right_columns "host" lk r)).
Proof.
  unfold merge_left, get_col.
  destruct (find_col "host" (columns l)) as [lk|]; [|done].
  destruct (find_col "host" (columns r)) as [rk|]; [|done].
  cbn [mbind result_bind].
  destruct (coerce_merge_keys lk rk) as [[]|] eqn:Hkeys; [|done].
  cbn [mbind result_bind]. intros [= <-]. by exists lk, rk.
Qed.

(** A join whose left table has rows keeps the columns of the left table
    and appends those of the right table other than its host column. *)
Lemma merge_left_inv_rows l r out :
  merge_left "host" l r = Ok out → hosts_of l ≠ [] →
  ∃ lk rk,
    find_col "host" (columns l) = Some lk
    ∧ find_col "host" (columns r) = Some rk
    ∧ out = mkDF (length (left_pairs_from 0 lk rk))
        (((λ col : column flt,
             (suffix_if (overlap "host" l r) "_x" col.1,
              take_left (left_pairs_from 0 lk rk) col.2)) <$> columns l)
         ++ ((λ col : column flt,
                (suffix_if (overlap "host" l r) "_y" col.1,
                 take_right (left_pairs_from 0 lk rk) col.2))
               <$> filter (λ col : column flt, col.1 ≠ "host") (columns r))).
Proof.
  intros (lk & rk & Hl & Hr & _ & ->)%merge_left_inv Hne.
  unfold hosts_of in Hne. rewrite Hl in Hne. simpl in Hne.
  exists lk, rk. unfold left_columns, right_columns.
  by rewrite !bool_decide_eq_false_2.
Qed.

Lemma merge_left_host_column l r out :
  merge_left "host" l r = Ok out →
  hosts_of out
  = take_left (left_pairs_from 0 (hosts_of l) (hosts_of r)) (hosts_of l).
Proof.
  intros (lk & rk & Hl & Hr & _ & ->)%merge_left_inv.
  unfold hosts_of. cbn [columns]. rewrite find_col_app, Hl, Hr.
  rewrite (find_col_relabel _ (take_left (left_pairs_from 0 lk rk)))
    by apply suffix_x_host.
  rewrite (find_col_relabel _ (take_right (left_pairs_from 0 lk rk)))
    by apply suffix_y_host.
  unfold left_columns, right_columns. case_bool_decide as Hlk.
  - subst lk. rewrite find_col_filter_eq, Hr. done.
  - by rewrite Hl.
Qed.

Lemma merge_left_hosts l r out h :
  merge_left "host" l r = Ok out → h ∈ hosts_of out ↔ h ∈ hosts_of l.
Proof.
  intros ->%merge_left_host_column.
  apply (take_left_keys [] (hosts_of l) (hosts_of r) h).
Qed.

Lemma merge_left_has_columns l r out :
  merge_left "host" l r = Ok out → length (columns out) ≠ 0%nat.
Proof.
  intros (lk & rk & Hl & Hr & _ & ->)%merge_left_inv. cbn [columns].
  rewrite length_app, !length_fmap.
  unfold left_columns, right_columns. case_bool_decide.
  - destruct (columns r); [done|]. simpl. lia.
  - destruct (columns l); [done|]. simpl. lia.
Qed.

(** A join with a row has a left table with rows. *)
Lemma merge_left_row l r out p h :
  merge_left "host" l r = Ok out → hosts_of out !! p = Some h →
  hosts_of l ≠ [].
Proof.
  intros ->%merge_left_host_column Hp Hnil. rewrite Hnil in Hp. done.
Qed.

(** *** The loops of cell-22 *)


End Joins.

(** ** Order of the passes *)

Section PassOrder.
Context {world : Type}.
Variable perform : pass → world → result world.

Lemma run_trace_prefix prog w : (run perform prog w).1 `prefix_of` prog.
Proof.
  revert w. induction prog as [|p prog IH]; intros w; simpl; [done|].
  destruct (perform p w) as [w'|e]; simpl.
  - specialize (IH w'). destruct (run perform prog w') as [tr r]. simpl in *.
    by apply prefix_cons.
  - apply prefix_cons, prefix_nil.
Qed.

Lemma run_trace_head p prog w :
  (run perform (p :: prog) w).1 !! 0%nat = Some p.
Proof.
  change (run perform (p :: prog) w) with
    (match perform p w with
     | Ok w' => let '(tr, r) := run perform prog w' in (p :: tr, r)
     | Raise e => ([p], Raise e)
     end).
  destruct (perform p w) as [w'|e]; [|done].
  by destruct (run perform prog w').
Qed.

Lemma always_after_prefix a b (prog tr : list pass) :
  tr `prefix_of` prog → always_after a b prog → always_after a b tr.
Proof.
  intros [k ->] H j Hj.
  destruct (H j) as (i & Hlt & Hi).
  { by apply lookup_app_l_Some. }
  exists i. split; [done|].
  apply lookup_lt_Some in Hj.
  by rewrite lookup_app_l in Hi by lia.
Qed.

Lemma notebook_program_NoDup : NoDup notebook_program.
Proof. apply (bool_decide_unpack _). by vm_compute. Qed.

Lemma always_after_program a b i j :
  notebook_program !! i = Some a → notebook_program !! j = Some b →
  (i < j)%nat → always_after a b notebook_program.
Proof.
  intros Hi Hj Hlt j' Hj'.
  assert (j' = j) as -> by (eapply NoDup_lookup; eauto using notebook_program_NoDup).
  eauto.
Qed.

(** C8. Whatever the calls do, and wherever a run stops, the calls that ran
    came in the order of the notebook: the graph upsert first, labels only
    after it, each aggregation pass only after the labels (Domain before
    IP), the two exports only after both aggregation passes, and the
    distance scores only after the labels and the exports. *)
Theorem passes_run_in_order (w : world) :
  notebook_trace perform w !! 0%nat = Some AddNodes
  ∧ always_after AddNodes UpdateLabels (notebook_trace perform w)
  ∧ always_after UpdateLabels UpdateDomMalFeats (notebook_trace perform w)
  ∧ always_after UpdateDomMalFeats UpdateIpMalFeats (notebook_trace perform w)
  ∧ always_after UpdateIpMalFeats DomscoreToCsv (notebook_trace perform w)
  ∧ always_after UpdateIpMalFeats IpscoreToCsv (notebook_trace perform w)
  ∧ always_after UpdateLabels GenLen2malScore (notebook_trace perform w)
  ∧ always_after DomscoreToCsv GenLen2malScore (notebook_trace perform w)
  ∧ always_after IpscoreToCsv GenLen2malScore (notebook_trace perform w).
Proof.
  assert (notebook_trace perform w `prefix_of` notebook_program) as Hpre
    by apply run_trace_prefix.
  split.
  { apply run_trace_head. }
  repeat split; (eapply always_after_prefix; [exact Hpre|]).
  - apply (always_after_program _ _ 0 1); [done | done | lia].
  - apply (always_after_program _ _ 1 2); [done | done | lia].
  - apply (always_after_program _ _ 2 3); [done | done | lia].
  - apply (always_after_program _ _ 3 4); [done | done | lia].
  - apply (always_after_program _ _ 3 5); [done | done | lia].
  - apply (always_after_program _ _ 1 9); [done | done | lia].
  - apply (always_after_program _ _ 4 9); [done | done | lia].
  - apply (always_after_program _ _ 5 9); [done | done | lia].
Qed.
End PassOrder.

(* ===================================================================== *)
(** ** The graph store *)

Import GraphStore.

Section Upsert.
Implicit Types (g : Graph) (r : Row) (rows : list Row).

Lemma graph_eq g1 g2 :
  fqdns g1 = fqdns g2 → domains g1 = domains g2 → ips g1 = ips g2 →
  belongs_to g1 = belongs_to g2 → resolves_to g1 = resolves_to g2 →
  g1 = g2.
Proof. destruct g1, g2. simpl. by intros -> -> -> -> ->. Qed.

Lemma upsert_rows_cons r rows g :
  upsert_rows (r :: rows) g = upsert_rows rows (upsert_row r g).
Proof. reflexivity. Qed.

Lemma lookup_touch {A} (m : gmap string (option A)) k k' :
  partial_alter touch k m !! k'
  = if bool_decide (k = k') then touch (m !! k') else m !! k'.
Proof.
  case_bool_decide as Hk.
  - subst. by rewrite lookup_partial_alter_eq.
  - by rewrite lookup_partial_alter_ne.
Qed.

(** After a batch an FQDN node holds the observation of the last row of
    its host, merged into the attributes it had. *)
Lemma upsert_rows_fqdns rows g h :
  fqdns (upsert_rows rows g) !! h
  = match last_obs h rows with
    | Some r => Some (observe r (default fresh_fqdn (fqdns g !! h)))
    | None => fqdns g !! h
    end.
Proof.
  revert g. induction rows as [|r rows IH]; intros g; [done|].
  rewrite upsert_rows_cons, IH. simpl.
  unfold upsert_row. destruct (row_host r) as [h'|] eqn:Hr; simpl.
  - destruct (decide (h' = h)) as [->|Hne].
    + rewrite lookup_insert_eq, bool_decide_eq_true_2 by done.
      by destruct (last_obs h rows).
    + rewrite lookup_insert_ne, bool_decide_eq_false_2 by congruence.
      by destruct (last_obs h rows).
  - by destruct (last_obs h rows).
Qed.

Lemma domains_upsert_row r g :
  domains (upsert_row r g)
  = match row_domain r with
    | Some d => partial_alter touch d (domains g)
    | None => domains g
    end.
Proof.
  unfold upsert_row, row_domain.
  destruct (row_host r); [destruct (row_isIP r)|]; done.
Qed.

Lemma ips_upsert_row r g :
  ips (upsert_row r g)
  = match row_ip r with
    | Some i => partial_alter touch i (ips g)
    | None => ips g
    end.
Proof. unfold upsert_row, row_ip. by destruct (row_host r). Qed.

Lemma touch_step {A} (m : gmap string (option A)) (k' k : string) (l : list string) :
  (if bool_decide (k ∈ l) then touch (partial_alter touch k' m !! k)
   else partial_alter touch k' m !! k)
  = if bool_decide (k ∈ k' :: l) then touch (m !! k) else m !! k.
Proof.
  rewrite lookup_touch. destruct (decide (k' = k)) as [->|Hne].
  - rewrite (bool_decide_eq_true_2 (k = k)) by done.
    rewrite (bool_decide_eq_true_2 (k ∈ k :: l)) by left.
    case_bool_decide; [|done]. by destruct (m !! k).
  - rewrite (bool_decide_eq_false_2 (k' = k)) by done.
    apply (f_equal (λ b : bool, if b then _ else _)).
    apply bool_decide_ext. rewrite elem_of_cons. naive_solver.
Qed.

Lemma upsert_rows_domains rows g d :
  domains (upsert_rows rows g) !! d
  = if bool_decide (d ∈ omap row_domain rows) then touch (domains g !! d)
    else domains g !! d.
Proof.
  revert g. induction rows as [|r rows IH]; intros g; [done|].
  rewrite upsert_rows_cons, IH, domains_upsert_row.
  change (omap row_domain (r :: rows)) with
    (match row_domain r with
     | Some d' => d' :: omap row_domain rows
     | None => omap row_domain rows
     end).
  destruct (row_domain r) as [d'|]; [|done]. apply touch_step.
Qed.

Lemma upsert_rows_ips rows g i :
  ips (upsert_rows rows g) !! i
  = if bool_decide (i ∈ omap row_ip rows) then touch (ips g !! i)
    else ips g !! i.
Proof.
  revert g. induction rows as [|r rows IH]; intros g; [done|].
  rewrite upsert_rows_cons, IH, ips_upsert_row.
  change (omap row_ip (r :: rows)) with
    (match row_ip r with
     | Some i' => i' :: omap row_ip rows
     | None => omap row_ip rows
     end).
  destruct (row_ip r) as [i'|]; [|done]. apply touch_step.
Qed.

Lemma upsert_rows_belongs rows g :
  belongs_to (upsert_rows rows g)
  = list_to_set (omap row_belongs rows) ∪ belongs_to g.
Proof.
  revert g. induction rows as [|r rows IH]; intros g.
  - simpl. set_solver.
  - rewrite upsert_rows_cons, IH. simpl.
    unfold upsert_row, row_belongs.
    destruct (row_host r) as [h'|]; simpl; [|done].
    destruct (row_isIP r); simpl; [done|]. set_solver.
Qed.

Lemma upsert_rows_resolves rows g :
  resolves_to (upsert_rows rows g)
  = list_to_set (omap row_resolves rows) ∪ resolves_to g.
Proof.
  revert g. induction rows as [|r rows IH]; intros g.
  - simpl. set_solver.
  - rewrite upsert_rows_cons, IH. simpl.
    unfold upsert_row, row_resolves.
    destruct (row_host r) as [h'|]; simpl; [|done]. set_solver.
Qed.

Lemma upsert_rows_idempotent rows g :
  upsert_rows rows (upsert_rows rows g) = upsert_rows rows g.
Proof.
  apply graph_eq.
  - apply map_eq. intros h. rewrite !upsert_rows_fqdns.
    by destruct (last_obs h rows).
  - apply map_eq. intros d. rewrite !upsert_rows_domains.
    case_bool_decide; [|done]. by destruct (domains g !! d).
  - apply map_eq. intros i. rewrite !upsert_rows_ips.
    case_bool_decide; [|done]. by destruct (ips g !! i).
  - rewrite !upsert_rows_belongs. set_solver.
  - rewrite !upsert_rows_resolves. set_solver.
Qed.

(** C5. Applying a batch, or a single row, a second time leaves the
    graph as the first application left it: the same nodes with the same
    attributes, the same edges, hence the same node and edge counts, and
    the same report. *)
Theorem upsert_idempotent rows r g :
  (upsert_batch rows (upsert_batch rows g).1).1 = (upsert_batch rows g).1
  ∧ (upsert_batch rows (upsert_batch rows g).1).2 = (upsert_batch rows g).2
  ∧ node_count (upsert_batch rows (upsert_batch rows g).1).1
    = node_count (upsert_batch rows g).1
  ∧ edge_count (upsert_batch rows (upsert_batch rows g).1).1
    = edge_count (upsert_batch rows g).1
  ∧ upsert_row r (upsert_row r g) = upsert_row r g.
Proof.
  unfold upsert_batch. simpl.
  rewrite upsert_rows_idempotent. repeat split.
  apply (upsert_rows_idempotent [r] g).
Qed.
End Upsert.

(** ** Ratio aggregates *)

Section Ratios.
Implicit Types (g : Graph).

Lemma Qc_of_nat_ne_0 (n : nat) : n ≠ 0%nat → Qc_of_Z (Z.of_nat n) ≠ 0%Qc.
Proof.
  intros Hn Hq. rewrite <- Z2Qc_inj_0 in Hq. apply Z2Qc_inj in Hq. lia.
Qed.

Lemma ratio_ok num cnt :
  ∃ q, ratio num cnt = Ok q ∧ (cnt = 0%nat → q = 0%Qc).
Proof.
  unfold ratio. case_decide as Hc.
  - by exists 0%Qc.
  - unfold divide. rewrite decide_False by by apply Qc_of_nat_ne_0.
    eexists. split; [done|]. intros ?. done.
Qed.

Lemma aggregate_domain_ok g d :
  ∃ agg, aggregate_domain g d = Ok agg
         ∧ (cntFQDN agg = 0%nat →
            malFQDN_ratio agg = 0%Qc ∧ malEng_ratio agg = 0%Qc).
Proof.
  unfold aggregate_domain.
  destruct (ratio_ok (Z.of_nat (length (filter (λ f, fqdn_malicious g f = true)
                                          (members_of (belongs_to g) d))))
              (length (members_of (belongs_to g) d))) as (q1 & -> & H1).
  destruct (ratio_ok (sum_Z (fqdn_engagement g <$> members_of (belongs_to g) d))
              (length (members_of (belongs_to g) d))) as (q2 & -> & H2).
  simpl. eexists. split; [done|]. simpl. intros H0. by split; [apply H1|apply H2].
Qed.

Lemma aggregate_ip_ok g i :
  ∃ agg, aggregate_ip g i = Ok agg
         ∧ (ipDom agg = 0%nat →
            ipMalDomRatio agg = 0%Qc ∧ ipDomMalEngRatio agg = 0%Qc).
Proof.
  unfold aggregate_ip.
  set (D := remove_dups (members_of (resolves_to g) i ≫= targets_of (belongs_to g))).
  destruct (ratio_ok (Z.of_nat (length (filter (λ d, domain_malicious g d = true) D)))
              (length D)) as (q1 & -> & H1).
  destruct (ratio_ok (sum_Z (domain_engagement g <$> D)) (length D))
    as (q2 & -> & H2).
  simpl. eexists. split; [done|]. simpl. intros H0. by split; [apply H1|apply H2].
Qed.

Lemma store_aggregates_ok {A} (agg : string → result A) (nodes : gmap string (option A)) :
  (∀ k, is_ok (agg k) = true) → is_ok (store_aggregates agg nodes) = true.
Proof.
  intros Hagg. unfold store_aggregates.
  induction (elements (dom nodes)) as [|k ks IH]; simpl; [done|].
  destruct (foldr _ _ ks) as [m|]; [|done]. simpl.
  specialize (Hagg k). by destruct (agg k).
Qed.

Lemma domain_pass_ok g : is_ok (domain_pass g) = true.
Proof.
  unfold domain_pass.
  pose proof (store_aggregates_ok (aggregate_domain g) (domains g)) as H.
  destruct (store_aggregates _ _); [done|]. apply H.
  intros k. by destruct (aggregate_domain_ok g k) as (agg & -> & _).
Qed.

Lemma ip_pass_ok g : is_ok (ip_pass g) = true.
Proof.
  unfold ip_pass.
  pose proof (store_aggregates_ok (aggregate_ip g) (ips g)) as H.
  destruct (store_aggregates _ _); [done|]. apply H.
  intros k. by destruct (aggregate_ip_ok g k) as (agg & -> & _).
Qed.

(** C6. Every ratio aggregate is computed without a division error, on
    every graph; on a Domain node with [cntFQDN = 0] both ratios are 0, and
    likewise on an IP node without Domains. *)
Theorem ratio_zero_guard g node :
  (∃ agg, aggregate_domain g node = Ok agg
          ∧ (cntFQDN agg = 0%nat →
             malFQDN_ratio agg = 0%Qc ∧ malEng_ratio agg = 0%Qc))
  ∧ (∃ agg, aggregate_ip g node = Ok agg
            ∧ (ipDom agg = 0%nat →
               ipMalDomRatio agg = 0%Qc ∧ ipDomMalEngRatio agg = 0%Qc))
  ∧ (∀ num, ratio num 0 = Ok 0%Qc)
  ∧ is_ok (domain_pass g) = true
  ∧ is_ok (ip_pass g) = true.
Proof.
  split; [apply aggregate_domain_ok|]. split; [apply aggregate_ip_ok|].
  split; [done|]. split; [apply domain_pass_ok | apply ip_pass_ok].
Qed.
End Ratios.

Lemma ratio_zero_guard_witness :
  ∃ agg, aggregate_domain orphan_graph "parked.example" = Ok agg
         ∧ cntFQDN agg = 0%nat
         ∧ malFQDN_ratio agg = 0%Qc ∧ malEng_ratio agg = 0%Qc.
Proof.
  destruct (ratio_zero_guard orphan_graph "parked.example")
    as [(agg & Hagg & Hz) _].
  exists agg. split; [exact Hagg|].
  assert (cntFQDN agg = 0%nat) as Hcnt.
  { vm_compute in Hagg. by injection Hagg as <-. }
  split; [exact Hcnt | exact (Hz Hcnt)].
Defined.

(** ** Labels *)

Section Labels.
Implicit Types (g : Graph) (ops : list op).

Lemma label_kept_refl g : label_kept g g.
Proof. intros h a Ha. exists a. split; [done|]. split; [done|lia]. Qed.

Lemma label_kept_trans g1 g2 g3 :
  label_kept g1 g2 → label_kept g2 g3 → label_kept g1 g3.
Proof.
  intros H12 H23 h a Ha.
  destruct (H12 h a Ha) as (a2 & Ha2 & Hm2 & He2).
  destruct (H23 h a2 Ha2) as (a3 & Ha3 & Hm3 & He3).
  exists a3. split; [done|]. split; [auto|lia].
Qed.

Lemma label_kept_fqdns g g' : fqdns g' = fqdns g → label_kept g g'.
Proof.
  intros Heq h a Ha. exists a. rewrite Heq. split; [done|]. split; [done|lia].
Qed.

Lemma insert_mark_kept g h e a0 :
  (fqdns g !! h = Some a0 ∨ fqdns g !! h = None) →
  label_kept g (with_fqdns (<[h := mark e a0]> (fqdns g)) g).
Proof.
  intros Hh h' a Ha. simpl. destruct (decide (h = h')) as [->|Hne].
  - rewrite lookup_insert_eq. destruct Hh as [Hh|Hh]; [|congruence].
    assert (a0 = a) as -> by congruence.
    eexists. split; [done|]. simpl. split; [done|lia].
  - rewrite lookup_insert_ne by done.
    exists a. split; [done|]. split; [done|lia].
Qed.

Lemma label_row_kept create g row : label_kept g (label_row create g row).
Proof.
  unfold label_row. destruct (fqdns g !! row.1) as [a|] eqn:Hrow.
  - apply insert_mark_kept. by left.
  - destruct create; [|apply label_kept_refl].
    apply insert_mark_kept. by right.
Qed.

Lemma labels_kept create rows g :
  label_kept g (apply_malicious_history create rows g).1.
Proof.
  unfold apply_malicious_history. simpl.
  revert g. induction rows as [|row rows IH]; intros g; simpl.
  - apply label_kept_refl.
  - eapply label_kept_trans; [apply label_row_kept | apply IH].
Qed.

Lemma domain_pass_fqdns g g' : domain_pass g = Ok g' → fqdns g' = fqdns g.
Proof.
  unfold domain_pass. destruct (store_aggregates _ _); simpl; [|done].
  by intros [= <-].
Qed.

Lemma ip_pass_fqdns g g' : ip_pass g = Ok g' → fqdns g' = fqdns g.
Proof.
  unfold ip_pass. destruct (store_aggregates _ _); simpl; [|done].
  by intros [= <-].
Qed.

Lemma step_kept create g o g' : step create g o = Ok g' → label_kept g g'.
Proof.
  destruct o as [rows| | |targets]; simpl.
  - intros [= <-]. apply labels_kept.
  - intros ?%domain_pass_fqdns. by apply label_kept_fqdns.
  - intros ?%ip_pass_fqdns. by apply label_kept_fqdns.
  - intros [= <-]. apply label_kept_refl.
Qed.

Lemma steps_kept create ops g g' : steps create g ops = Ok g' → label_kept g g'.
Proof.
  revert g. induction ops as [|o ops IH]; intros g; simpl.
  - intros [= <-]. apply label_kept_refl.
  - destruct (step create g o) as [g1|] eqn:Hstep; simpl; [|done].
    intros Hrest. eapply label_kept_trans; [by eapply step_kept | by apply IH].
Qed.

Lemma step_ok create g o : is_ok (step create g o) = true.
Proof.
  destruct o; simpl; [done | apply domain_pass_ok | apply ip_pass_ok | done].
Qed.

Lemma steps_ok create ops g : ∃ g', steps create g ops = Ok g'.
Proof.
  revert g. induction ops as [|o ops IH]; intros g; simpl; [by eexists|].
  pose proof (step_ok create g o) as Hok.
  destruct (step create g o) as [g1|]; [|done]. simpl. apply IH.
Qed.

(** C4. Any sequence of label propagations, aggregation passes and
    distance computations runs to completion, and an FQDN node that was
    malicious before it is malicious after it with an engagement score
    that is not lower; one malicious row sets the score of an existing
    node to the maximum of the stored and the incoming score. *)
Theorem malicious_label_monotone create ops g :
  (∃ g', steps create g ops = Ok g')
  ∧ (∀ g' h a,
       steps create g ops = Ok g' →
       fqdns g !! h = Some a → isMalicious a = true →
       ∃ a', fqdns g' !! h = Some a' ∧ isMalicious a' = true
             ∧ (malEngagement a ≤ malEngagement a')%Z)
  ∧ (∀ h e a,
       fqdns g !! h = Some a →
       ∃ a', fqdns (label_row create g (h, e)) !! h = Some a'
             ∧ isMalicious a' = true
             ∧ malEngagement a' = Z.max (malEngagement a) e).
Proof.
  split; [apply steps_ok|]. split.
  - intros g' h a Hsteps Ha Hmal.
    destruct (steps_kept _ _ _ _ Hsteps h a Ha) as (a' & Ha' & Hm & He).
    exists a'. auto.
  - intros h e a Ha. unfold label_row. simpl. rewrite Ha. simpl.
    rewrite lookup_insert_eq. eexists. split; [done|]. done.
Qed.
End Labels.

Lemma malicious_label_monotone_witness :
  ∃ g' a',
    steps false example_graph example_ops = Ok g'
    ∧ fqdns example_graph !! "b.evil.com" = Some (mkFqdn "2021-03-30" false true 5)
    ∧ fqdns g' !! "b.evil.com" = Some a'
    ∧ isMalicious a' = true
    ∧ (5 ≤ malEngagement a')%Z.
Proof.
  destruct (malicious_label_monotone false example_ops example_graph)
    as [[g' Hg'] [Hkeep _]].
  destruct (Hkeep g' "b.evil.com" (mkFqdn "2021-03-30" false true 5) Hg')
    as (a' & Ha' & Hm & He); [vm_compute; reflexivity | reflexivity |].
  exists g', a'. split; [exact Hg'|]. split; [vm_compute; reflexivity|].
  split; [exact Ha'|]. split; [exact Hm | exact He].
Defined.

(* ===================================================================== *)
(** ** Further properties of the notebook code *)

(** *** The graph input, column by column *)

Section PreparedInput.
Context {flt ipaddr ext : Type}.
Variable ip_address : cell flt → result ipaddr.
Variable tld_extract : cell flt → result ext.
Variable registered_domain : ext → string.
Variable ns : namespace.
Variable merge_cisco : DataFrame flt → DataFrame flt → result (DataFrame flt).
Implicit Types (df : DataFrame flt) (c : string).

Lemma find_col_assign_ne df c c' data :
  c ≠ c' → find_col c (columns (assign df c' data)) = find_col c (columns df).
Proof.
  intros Hne. unfold assign. case_bool_decide as Hin; simpl.
  - induction (columns df) as [|col cols IH]; [done|].
    rewrite fmap_cons. cbn [find_col]. rewrite IH.
    destruct (decide (col.1 = c')) as [Hc|Hc].
    + rewrite (bool_decide_eq_true_2 _ Hc). simpl.
      rewrite !bool_decide_eq_false_2; [done|congruence..].
    + by rewrite (bool_decide_eq_false_2 _ Hc).
  - rewrite find_col_app. destruct (find_col c (columns df)); [done|].
    simpl. by rewrite bool_decide_eq_false_2.
Qed.

Lemma get_col_assign_ne df c c' data :
  c ≠ c' → get_col (assign df c' data) c = get_col df c.
Proof. intros Hne. unfold get_col. by rewrite find_col_assign_ne. Qed.

Lemma nrows_assign df c data : nrows (assign df c data) = nrows df.
Proof. unfold assign. by case_bool_decide. Qed.

Lemma find_col_labels c (cols : list (column flt)) :
  is_Some (find_col c cols) ↔ c ∈ cols.*1.
Proof.
  induction cols as [|col cols IH]; simpl.
  - split; [by intros [? ?] | by intros ?%elem_of_nil].
  - case_bool_decide as Hc.
    + split; [intros _; subst; left | by eexists].
    + rewrite IH, elem_of_cons. naive_solver.
Qed.

Lemma get_col_ok df c : c ∈ labels df → ∃ d, get_col df c = Ok d.
Proof.
  intros [d Hd]%find_col_labels. exists d. unfold get_col. by rewrite Hd.
Qed.

Lemma get_col_missing df c : c ∉ labels df → get_col df c = Raise (KeyError c).
Proof.
  intros Hc. unfold get_col.
  destruct (find_col c (columns df)) as [d|] eqn:Hd; [|done].
  exfalso. apply Hc, find_col_labels. by eexists.
Qed.

(** The preparation keeps the rows and every column it was given, the host
    column included; it sets [logday] to the day in every row, [domain] to
    [parse_reg_dom] of the host of the row and [isIP] to [isIP] of the host
    of the row, whether or not the table already had columns of these
    names. *)
Theorem prepare_graph_inputdata_columns logdf ciscodf day merged out :
  merge_cisco logdf ciscodf = Ok merged →
  prepare_graph_inputdata ip_address tld_extract registered_domain ns
    merge_cisco logdf ciscodf day "host" = Ok out →
  ∃ hosts,
    find_col "host" (columns merged) = Some hosts
    ∧ nrows out = nrows merged
    ∧ find_col "host" (columns out) = Some hosts
    ∧ find_col "logday" (columns out) = Some (replicate (nrows merged) (CStr day))
    ∧ find_col "domain" (columns out)
      = Some (parse_reg_dom tld_extract registered_domain ns <$> hosts)
    ∧ find_col "isIP" (columns out) = Some (isIP ip_address ns <$> hosts)
    ∧ ∀ c, c ∉ ["logday"; "domain"; "isIP"] →
           find_col c (columns out) = find_col c (columns merged).
Proof.
  intros Hm. unfold prepare_graph_inputdata, assign_scalar. rewrite Hm.
  cbn [mbind result_bind]. rewrite get_col_assign_ne by done.
  destruct (get_col merged "host") as [hosts|] eqn:Hg; [|done].
  cbn [mbind result_bind]. rewrite !get_col_assign_ne, Hg by done.
  cbn [mbind result_bind].
  assert (find_col "host" (columns merged) = Some hosts) as Hh.
  { unfold get_col in Hg. by destruct (find_col "host" (columns merged)) as [?|];
      simplify_eq. }
  intros [= <-]. exists hosts. split; [done|]. split.
  { by rewrite !nrows_assign. }
  split. { by rewrite !find_col_assign_ne by done. }
  split. { rewrite !find_col_assign_ne by done. apply find_col_assign. }
  split. { rewrite find_col_assign_ne by done. apply find_col_assign. }
  split. { apply find_col_assign. }
  intros c Hc. rewrite !find_col_assign_ne; [done|..];
    intros ->; apply Hc; set_solver.
Qed.

(** What stops cell-8: a batch without client column, a failing popularity
    merge, or a merged table without host column; in every other case the
    graph input is produced. *)
Theorem graphdf_outcome host100 cisco_1m :
  match graphdf ip_address tld_extract registered_domain ns merge_cisco
          host100 cisco_1m with
  | Ok out =>
      ∃ logdf merged,
        drop_column "id_orig_h" host100 = Ok logdf
        ∧ merge_cisco logdf cisco_1m = Ok merged
        ∧ "host" ∈ labels merged
  | Raise e =>
      (("id_orig_h" ∉ labels host100) ∧ e = KeyError "id_orig_h")
      ∨ (∃ logdf, drop_column "id_orig_h" host100 = Ok logdf
                  ∧ merge_cisco logdf cisco_1m = Raise e)
      ∨ (∃ logdf merged,
           drop_column "id_orig_h" host100 = Ok logdf
           ∧ merge_cisco logdf cisco_1m = Ok merged
           ∧ ("host" ∉ labels merged) ∧ e = KeyError "host")
  end.
Proof.
  unfold graphdf, prepare_graph_inputdata.
  unfold drop_column at 1. case_bool_decide as Hc; cbn [mbind result_bind].
  2:{ left. done. }
  set (logdf := mkDF _ _).
  assert (drop_column "id_orig_h" host100 = Ok logdf) as Hdrop.
  { unfold drop_column. by rewrite bool_decide_eq_true_2. }
  destruct (merge_cisco logdf cisco_1m) as [merged|e] eqn:Hm;
    cbn [mbind result_bind].
  2:{ right; left. by exists logdf. }
  unfold assign_scalar. rewrite get_col_assign_ne by done.
  destruct (decide ("host" ∈ labels merged)) as [Hin|Hin].
  - destruct (get_col_ok merged "host" Hin) as [hosts Hg]. rewrite Hg.
    cbn [mbind result_bind]. rewrite !get_col_assign_ne, Hg by done.
    cbn [mbind result_bind].
    by exists logdf, merged.
  - rewrite get_col_missing by done. cbn [mbind result_bind].
    right; right. by exists logdf, merged.
Qed.

(** A Domain key is the empty string only for the empty host, and the key
    of a string is a string. *)
Theorem parse_reg_dom_key_nonempty (text : cell flt) :
  (parse_reg_dom tld_extract registered_domain ns text = CStr "" → text = CStr "")
  ∧ (∀ s, text = CStr s →
          ∃ s', parse_reg_dom tld_extract registered_domain ns text = CStr s').
Proof.
  unfold parse_reg_dom.
  destruct (resolve ns "tldextract") as [[]|]; simpl;
    [|split; [done | intros s ->; by eexists]].
  destruct (tld_extract text) as [x|]; simpl;
    [|split; [done | intros s ->; by eexists]].
  case_bool_decide as Hx; simpl.
  - split; [done | intros s ->; by eexists].
  - split; [intros [= ?]; done | intros s _; by eexists].
Qed.

End PreparedInput.

Lemma prepare_graph_inputdata_columns_witness :
  ∃ out hosts,
    graphdf Sample.ip_address Sample.tld_extract id notebook_globals
      Sample.merge_cisco Sample.batch1 Sample.cisco = Ok out
    ∧ hosts = [CStr "104.192.108.134"; CStr "a.example.com"]
    ∧ find_col "host" (columns out) = Some hosts
    ∧ find_col "domain" (columns out)
      = Some [CStr "104.192.108.134"; CStr "example.com"].
Proof.
  destruct (prepare_graph_inputdata_columns Sample.ip_address Sample.tld_extract
              id notebook_globals Sample.merge_cisco
              (mkDF 2 [("host", [CStr "104.192.108.134"; CStr "a.example.com"]);
                       ("id_resp_h", [CStr "104.192.108.134"; CStr "1.1.1.1"]);
                       ("id_resp_p", [CInt 80; CInt 443])])
              Sample.cisco logday
              (mkDF 2 [("host", [CStr "104.192.108.134"; CStr "a.example.com"]);
                       ("id_resp_h", [CStr "104.192.108.134"; CStr "1.1.1.1"]);
                       ("id_resp_p", [CInt 80; CInt 443]);
                       ("rank", [CNaN; CFloat 2%Z])])
              (mkDF 2 [("host", [CStr "104.192.108.134"; CStr "a.example.com"]);
                       ("id_resp_h", [CStr "104.192.108.134"; CStr "1.1.1.1"]);
                       ("id_resp_p", [CInt 80; CInt 443]);
                       ("rank", [CNaN; CFloat 2%Z]);
                       ("logday", [CStr "2021-03-30"; CStr "2021-03-30"]);
                       ("domain", [CStr "104.192.108.134"; CStr "example.com"]);
                       ("isIP", [CInt 0; CInt 0])]))
    as (hosts & Hh & _ & Hhost & _ & Hdom & _).
  - vm_compute. reflexivity.
  - vm_compute. reflexivity.
  - cbn in Hh. injection Hh as <-.
    eexists _, _. split; [vm_compute; reflexivity|].
    split; [reflexivity|]. split; [exact Hhost|]. exact Hdom.
Defined.

(** *** The scaffolding columns *)

Section Scaffold.
Context {flt : Type} `{EqDecision flt}.
Implicit Types (df : DataFrame flt) (c : string) (ls : list string).

Lemma filter_all {A} (P : A → Prop) `{!∀ x, Decision (P x)} (l : list A) :
  (∀ x, x ∈ l → P x) → filter P l = l.
Proof.
  induction l as [|x l IH]; intros HP; [done|].
  rewrite filter_cons_True by (apply HP; left).
  f_equal. apply IH. intros y Hy. apply HP. by right.
Qed.

Lemma filter_ext_in {A} (P Q : A → Prop)
    `{!∀ x, Decision (P x), !∀ x, Decision (Q x)} (l : list A) :
  (∀ x, x ∈ l → P x ↔ Q x) → filter P l = filter Q l.
Proof.
  induction l as [|x l IH]; intros HPQ; [done|].
  rewrite !filter_cons.
  rewrite IH by (intros y Hy; apply HPQ; by right).
  apply decide_ext, HPQ. left.
Qed.

Lemma labels_mkDF_filter n c (cols : list (column flt)) :
  labels (mkDF n (filter (λ col : column flt, col.1 ≠ c) cols))
  = filter (λ x, x ≠ c) cols.*1.
Proof.
  unfold labels. cbn [columns].
  induction cols as [|col cols IH]; [done|].
  rewrite fmap_cons, !filter_cons. cbn [fst].
  case_decide; by rewrite ?fmap_cons, IH.
Qed.

Lemma drop_column_inv c df df' :
  drop_column c df = Ok df' →
  c ∈ labels df
  ∧ df' = mkDF (nrows df) (filter (λ col : column flt, col.1 ≠ c) (columns df)).
Proof.
  unfold drop_column. case_bool_decide; [|done]. by intros [= <-].
Qed.

Lemma drop_loop_inv ls df df' :
  drop_loop ls df = Ok df' →
  NoDup (filter (λ c, c ∈ drop_col) ls)
  ∧ (∀ c, c ∈ filter (λ c, c ∈ drop_col) ls → c ∈ labels df)
  ∧ df' = mkDF (nrows df)
            (filter (λ col : column flt,
                       col.1 ∉ filter (λ c, c ∈ drop_col) ls) (columns df)).
Proof.
  revert df. induction ls as [|c ls IH]; intros df.
  - simpl. intros [= <-]. split; [constructor|]. split.
    + by intros c ?%elem_of_nil.
    + rewrite filter_all by (intros col _; apply not_elem_of_nil).
      by destruct df.
  - simpl drop_loop. rewrite filter_cons.
    case_bool_decide as Hc.
    + rewrite decide_True by done.
      destruct (drop_column c df) as [df1|] eqn:Hd; [|done].
      cbn [mbind result_bind].
      apply drop_column_inv in Hd as [Hin ->].
      intros (Hnd & Hsub & ->)%IH.
      assert (c ∉ filter (λ c0, c0 ∈ drop_col) ls) as Hfresh.
      { intros Hc'. apply Hsub in Hc'. rewrite labels_mkDF_filter in Hc'.
        by apply list_elem_of_filter in Hc' as [? _]. }
      split; [by constructor|]. split.
      * intros c' [->|Hc']%elem_of_cons; [done|].
        apply Hsub in Hc'. rewrite labels_mkDF_filter in Hc'.
        by apply list_elem_of_filter in Hc' as [_ ?].
      * cbn [nrows columns]. f_equal. rewrite list_filter_filter.
        apply list_filter_iff.
        intros col. rewrite not_elem_of_cons. naive_solver.
    + rewrite decide_False by done. apply IH.
Qed.

Lemma drop_loop_ok ls df :
  NoDup (filter (λ c, c ∈ drop_col) ls) →
  (∀ c, c ∈ filter (λ c, c ∈ drop_col) ls → c ∈ labels df) →
  ∃ df', drop_loop ls df = Ok df'.
Proof.
  revert df. induction ls as [|c ls IH]; intros df; [by eexists|].
  simpl drop_loop. rewrite filter_cons. case_bool_decide as Hc.
  - rewrite decide_True by done. intros [Hfresh Hnd]%NoDup_cons Hsub.
    unfold drop_column. rewrite bool_decide_eq_true_2 by (apply Hsub; left).
    cbn [mbind result_bind]. apply IH; [done|].
    intros c' Hc'. rewrite labels_mkDF_filter. apply list_elem_of_filter. split.
    + intros ->. done.
    + apply Hsub. by right.
  - rewrite decide_False by done. apply IH.
Qed.

Lemma drop_loop_raise ls df e :
  drop_loop ls df = Raise e → ∃ c, c ∈ drop_col ∧ e = KeyError c.
Proof.
  revert df. induction ls as [|c ls IH]; intros df; [done|].
  simpl. case_bool_decide as Hc; [|apply IH].
  unfold drop_column. case_bool_decide; cbn [mbind result_bind].
  - apply IH.
  - intros [= <-]. by exists c.
Qed.

Lemma drop_scaffold_inv df df' :
  drop_scaffold df = Ok df' →
  NoDup (scaffold_labels df)
  ∧ df' = mkDF (nrows df)
            (filter (λ col : column flt, col.1 ∉ drop_col) (columns df)).
Proof.
  unfold drop_scaffold, scaffold_labels.
  intros (Hnd & _ & ->)%drop_loop_inv. split; [done|].
  f_equal. apply filter_ext_in. intros col Hcol.
  rewrite list_elem_of_filter.
  assert (col.1 ∈ labels df) by (unfold labels; apply list_elem_of_fmap; eauto).
  naive_solver.
Qed.

(** The inner loop of cell-22 removes exactly the columns labelled in
    [drop_col] and keeps the others, with their data, in order; it stops
    with a [KeyError] exactly when a label of [drop_col] names two columns of
    the table, because the first round has then dropped both. *)
Theorem drop_scaffold_outcome df :
  (NoDup (scaffold_labels df) →
   drop_scaffold df
   = Ok (mkDF (nrows df)
           (filter (λ col : column flt, col.1 ∉ drop_col) (columns df))))
  ∧ (¬ NoDup (scaffold_labels df) →
     ∃ c, c ∈ drop_col ∧ drop_scaffold df = Raise (KeyError c)).
Proof.
  unfold drop_scaffold, scaffold_labels. split.
  - intros Hnd.
    destruct (drop_loop_ok (labels df) df Hnd) as [df' Hdf'].
    { intros c [_ ?]%list_elem_of_filter. done. }
    rewrite Hdf'. apply drop_loop_inv in Hdf' as (_ & _ & ->).
    do 2 f_equal. apply filter_ext_in. intros col Hcol.
    rewrite list_elem_of_filter.
    assert (col.1 ∈ labels df) by (unfold labels; apply list_elem_of_fmap; eauto).
    naive_solver.
  - intros Hdup. destruct (drop_loop (labels df) df) as [df'|e] eqn:Hl.
    + by apply drop_loop_inv in Hl as (? & _).
    + apply drop_loop_raise in Hl as (c & ? & ->). by exists c.
Qed.
End Scaffold.

Lemma drop_scaffold_outcome_witness :
  drop_scaffold Sample.feat_domgraph
  = Ok (mkDF 1 [("host", [CStr "a.example.com"]);
                ("cntFQDN", [CInt 1]);
                ("maxCisco", [CNaN])])
  ∧ ∃ c, c ∈ drop_col
         ∧ drop_scaffold (mkDF 1 [("host", [CStr (flt:=Z) "a.example.com"]);
                                  ("domain", [CStr "example.com"]);
                                  ("domain", [CStr "example.com"])])
           = Raise (KeyError c).
Proof.
  destruct (drop_scaffold_outcome Sample.feat_domgraph) as [Hok _].
  destruct (drop_scaffold_outcome
              (mkDF 1 [("host", [CStr (flt:=Z) "a.example.com"]);
                       ("domain", [CStr "example.com"]);
                       ("domain", [CStr "example.com"])])) as [_ Hdup].
  split.
  - rewrite Hok; [reflexivity|]. apply (bool_decide_unpack _). by vm_compute.
  - apply Hdup. apply (bool_decide_unpack _). by vm_compute.
Defined.

(** *** When the assembly succeeds *)

Section AssemblyOutcome.
Context {flt : Type} `{EqDecision flt} `{Pandas flt}.
Implicit Types (l r df raw datadf out : DataFrame flt).
Implicit Types (feats rest : list (DataFrame flt)) (c : string).

Lemma labels_fillna0 df : labels (fillna0 df) = labels df.
Proof.
  unfold labels, fillna0. cbn [columns].
  rewrite <- list_fmap_compose. by apply list_fmap_ext.
Qed.

Lemma find_col_fillna0 c df :
  find_col c (columns (fillna0 df)) = fillna_col <$> find_col c (columns df).
Proof.
  unfold fillna0. cbn [columns].
  induction (columns df) as [|col cols IH]; [done|].
  rewrite fmap_cons. cbn [find_col fst snd]. rewrite IH.
  by case_bool_decide.
Qed.

Lemma find_col_filter_not_in (D : list string) c (cols : list (column flt)) :
  c ∉ D →
  find_col c (filter (λ col : column flt, col.1 ∉ D) cols) = find_col c cols.
Proof.
  intros Hc. induction cols as [|col cols IH]; [done|].
  rewrite filter_cons. cbn [find_col]. case_decide as Hcol.
  - cbn [find_col]. by rewrite IH.
  - rewrite IH. rewrite bool_decide_eq_false_2; [done|].
    intros Heq. apply Hc. by rewrite <- Heq.
Qed.

Lemma labels_filter_not_in (D : list string) (cols : list (column flt)) :
  (filter (λ col : column flt, col.1 ∉ D) cols).*1
  = filter (λ c, c ∉ D) cols.*1.
Proof.
  induction cols as [|col cols IH]; [done|].
  rewrite fmap_cons, !filter_cons. cbn [fst].
  destruct (decide (col.1 ∉ D)); by rewrite ?fmap_cons, IH.
Qed.

Lemma scaffold_labels_fillna0 df :
  scaffold_labels (fillna0 df) = scaffold_labels df.
Proof. unfold scaffold_labels. by rewrite labels_fillna0. Qed.

Lemma host_not_scaffold : "host" ∉ drop_col.
Proof. apply (bool_decide_unpack _). by vm_compute. Qed.

(** A table as the outer loop joins it, after the fill and the drop. *)
Lemma processed_frame raw tmpfeat :
  drop_scaffold (fillna0 raw) = Ok tmpfeat →
  tmpfeat = mkDF (nrows raw)
              (filter (λ col : column flt, col.1 ∉ drop_col)
                 (columns (fillna0 raw))).
Proof. by intros [_ ->]%drop_scaffold_inv. Qed.

Lemma processed_col raw tmpfeat c :
  drop_scaffold (fillna0 raw) = Ok tmpfeat → c ∉ drop_col →
  find_col c (columns tmpfeat) = fillna_col <$> find_col c (columns raw).
Proof.
  intros ->%processed_frame Hc. cbn [columns].
  by rewrite find_col_filter_not_in, find_col_fillna0.
Qed.

Lemma processed_inv raw tmpfeat :
  drop_scaffold (fillna0 raw) = Ok tmpfeat →
  NoDup (scaffold_labels raw)
  ∧ labels tmpfeat = filter (λ c, c ∉ drop_col) (labels raw)
  ∧ find_col "host" (columns tmpfeat)
    = fillna_col <$> find_col "host" (columns raw).
Proof.
  intros Hp. split; [|split].
  - apply drop_scaffold_inv in Hp as [Hnd _].
    by rewrite scaffold_labels_fillna0 in Hnd.
  - rewrite (processed_frame _ _ Hp).
    unfold labels at 1. cbn [columns]. rewrite labels_filter_not_in.
    change ((columns (fillna0 raw)).*1) with (labels (fillna0 raw)).
    by rewrite labels_fillna0.
  - apply (processed_col _ _ _ Hp), host_not_scaffold.
Qed.

Lemma processed_hosts raw tmpfeat :
  drop_scaffold (fillna0 raw) = Ok tmpfeat →
  hosts_of tmpfeat = fillna_col (hosts_of raw).
Proof.
  intros (_ & _ & Hh)%processed_inv. unfold hosts_of. rewrite Hh.
  by destruct (find_col "host" (columns raw)).
Qed.

Lemma processed_host raw tmpfeat :
  drop_scaffold (fillna0 raw) = Ok tmpfeat →
  "host" ∈ labels tmpfeat ↔ "host" ∈ labels raw.
Proof.
  intros (_ & _ & Hh)%processed_inv. unfold labels.
  rewrite <- !find_col_labels, Hh. by rewrite fmap_is_Some.
Qed.

Lemma processed_has_columns raw tmpfeat c :
  drop_scaffold (fillna0 raw) = Ok tmpfeat → c ∈ labels raw → c ∉ drop_col →
  length (columns tmpfeat) ≠ 0%nat.
Proof.
  intros (_ & Hlab & _)%processed_inv Hc Hkeep.
  assert (c ∈ labels tmpfeat) as Hin
    by (rewrite Hlab; by apply list_elem_of_filter).
  unfold labels in Hin. destruct (columns tmpfeat); [|done].
  by apply elem_of_nil in Hin.
Qed.

(** The labels of a join: those of the left table and those of the right
    table without its host column, when the left table has rows. *)
Lemma merge_left_labels l r out :
  merge_left "host" l r = Ok out → hosts_of l ≠ [] →
  labels out
  = (suffix_if (overlap "host" l r) "_x" <$> labels l)
    ++ (suffix_if (overlap "host" l r) "_y"
          <$> filter (λ c, c ≠ "host") (labels r)).
Proof.
  intros Hm Hrows.
  apply merge_left_inv_rows in Hm as (lk & rk & _ & _ & ->); [|done].
  unfold labels. cbn [columns]. rewrite fmap_app, <- !list_fmap_compose.
  f_equal.
  induction (columns r) as [|col cols IH]; [done|].
  rewrite fmap_cons, !filter_cons. cbn [fst].
  destruct (decide (col.1 ≠ "host")); by rewrite ?fmap_cons, IH.
Qed.

(** Whatever the number of rows, a label of a join is a label of one of
    the two tables, with or without suffix. *)
Lemma merge_left_label_from l r out c :
  merge_left "host" l r = Ok out → c ∈ labels out →
  (∃ c', c' ∈ labels l ∧ c = suffix_if (overlap "host" l r) "_x" c')
  ∨ (∃ c', c' ∈ labels r ∧ c = suffix_if (overlap "host" l r) "_y" c').
Proof.
  intros (lk & rk & _ & _ & _ & ->)%merge_left_inv.
  unfold labels. cbn [columns]. rewrite fmap_app, elem_of_app.
  rewrite <- !list_fmap_compose.
  intros [Hc|Hc]; apply list_elem_of_fmap in Hc as (col & -> & Hcol);
    [left|right]; exists col.1; (split; [|done]); apply list_elem_of_fmap;
    exists col; (split; [done|]).
  - unfold left_columns in Hcol.
    case_bool_decide; [by apply list_elem_of_filter in Hcol as [_ ?] | done].
  - unfold right_columns in Hcol.
    case_bool_decide; [done | by apply list_elem_of_filter in Hcol as [_ ?]].
Qed.

Lemma merge_left_needs_host l r out :
  merge_left "host" l r = Ok out → "host" ∈ labels l ∧ "host" ∈ labels r.
Proof.
  intros (lk & rk & Hl & Hr & _)%merge_left_inv.
  unfold labels. rewrite <- !find_col_labels, Hl, Hr. by split; eexists.
Qed.

Lemma assemble_loop_ok_inv feats datadf out :
  length (columns datadf) ≠ 0%nat →
  assemble_loop datadf feats = Ok out →
  feats = []
  ∨ ("host" ∈ labels datadf
     ∧ Forall (λ t, NoDup (scaffold_labels t) ∧ "host" ∈ labels t) feats).
Proof.
  revert datadf. induction feats as [|raw rest IH]; intros datadf Hcols.
  { by left. }
  cbn [assemble_loop]. intros Hout. right.
  destruct (drop_scaffold (fillna0 raw)) as [tmpfeat|] eqn:Hp; [|done].
  cbn [mbind result_bind] in Hout.
  rewrite bool_decide_eq_false_2 in Hout by done.
  destruct (merge_left "host" datadf tmpfeat) as [datadf'|] eqn:Hm; [|done].
  cbn [mbind result_bind] in Hout.
  destruct (merge_left_needs_host _ _ _ Hm) as [Hl Hr].
  split; [done|]. constructor.
  - split; [by apply processed_inv in Hp as (? & _)|].
    by apply (processed_host _ _ Hp).
  - destruct (IH datadf' (merge_left_has_columns _ _ _ Hm) Hout)
      as [->|[_ Hrest]]; [constructor | done].
Qed.

(** What the assembly needs to succeed: no table with two columns under
    one scaffolding label and, as soon as a table is joined, a host column
    in every table.  A table that breaks this stops the loop in [drop] or in
    [merge]. *)
Theorem assemble_succeeds raw rest out :
  (∃ c, c ∈ labels raw ∧ c ∉ drop_col) →
  assemble (raw :: rest) = Ok out →
  NoDup (scaffold_labels raw)
  ∧ (rest = []
     ∨ ("host" ∈ labels raw
        ∧ Forall (λ t, NoDup (scaffold_labels t) ∧ "host" ∈ labels t) rest)).
Proof.
  intros (c & Hc & Hkeep). unfold assemble. cbn [assemble_loop].
  rewrite (bool_decide_eq_true_2 (length (columns empty_frame) = 0%nat)) by done.
  destruct (drop_scaffold (fillna0 raw)) as [tmpfeat|] eqn:Hp; [|done].
  cbn [mbind result_bind]. intros Hout.
  split; [by apply processed_inv in Hp as (? & _)|].
  destruct (assemble_loop_ok_inv rest tmpfeat out) as [->|[Hh Hrest]];
    [by eapply processed_has_columns | done | by left |].
  right. split; [by apply (processed_host _ _ Hp) | done].
Qed.
End AssemblyOutcome.

Lemma assemble_succeeds_witness :
  assemble [Sample.feat_domgraph; Sample.feat_ipgraph]
  = Ok (mkDF 1 [("host", [CStr "a.example.com"]);
                ("cntFQDN", [CInt 1]);
                ("maxCisco", [CFloat 0%Z]);
                ("sum_ipDom", [CNaN])])
  ∧ NoDup (scaffold_labels Sample.feat_domgraph)
  ∧ "host" ∈ labels Sample.feat_ipgraph.
Proof.
  assert (assemble [Sample.feat_domgraph; Sample.feat_ipgraph]
          = Ok (mkDF 1 [("host", [CStr "a.example.com"]);
                        ("cntFQDN", [CInt 1]);
                        ("maxCisco", [CFloat 0%Z]);
                        ("sum_ipDom", [CNaN])])) as Hout
    by (vm_compute; reflexivity).
  split; [exact Hout|].
  pose proof (λ Hc, assemble_succeeds Sample.feat_domgraph [Sample.feat_ipgraph]
                      _ Hc Hout) as Hneeds.
  destruct Hneeds as [Hnd [Hnil|[_ Hall]]].
  - exists "host". split; apply (bool_decide_unpack _); by vm_compute.
  - discriminate Hnil.
  - split; [exact Hnd|].
    apply Forall_cons in Hall as [[_ Hh] _]. exact Hh.
Defined.

(** *** The rows of a join *)

Section JoinRows.
Context {flt : Type} `{EqDecision flt} `{Pandas flt}.
Implicit Types (l r out datadf raw : DataFrame flt) (rest : list (DataFrame flt)).
Implicit Types (lk rk d : list (cell flt)) (k h : cell flt).

Lemma length_matches_from j k rk :
  length (matches_from j k rk) = occurrences k rk.
Proof.
  unfold occurrences. revert j. induction rk as [|k' rk IH]; intros j; [done|].
  cbn [matches_from]. rewrite filter_cons.
  destruct (decide (k' = k)) as [Hk|Hk].
  - rewrite bool_decide_eq_true_2 by done. simpl. by rewrite IH.
  - rewrite bool_decide_eq_false_2 by done. by rewrite IH.
Qed.

Lemma length_left_pairs_row i k rk :
  length (left_pairs_row i k rk) = (1 `max` occurrences k rk)%nat.
Proof.
  unfold left_pairs_row. rewrite <- (length_matches_from 0).
  destruct (matches_from 0 k rk) as [|j js]; [done|].
  rewrite length_fmap. simpl. lia.
Qed.

Lemma length_left_pairs_from i lk rk :
  length (left_pairs_from i lk rk)
  = sum_list_with (λ k, 1 `max` occurrences k rk)%nat lk.
Proof.
  revert i. induction lk as [|k lk IH]; intros i; [done|].
  cbn [left_pairs_from sum_list_with].
  by rewrite length_app, length_left_pairs_row, IH.
Qed.

(** Every row of the join copies one row of the left table. *)
Lemma left_pairs_left pre lk rk p :
  p ∈ left_pairs_from (length pre) lk rk → is_Some ((pre ++ lk) !! p.1).
Proof.
  revert pre. induction lk as [|k lk IH]; intros pre; simpl.
  - by intros ?%elem_of_nil.
  - intros [Hp|Hp]%elem_of_app.
    + pose proof (left_pairs_row_fst (length pre) k rk) as Hfst.
      rewrite Forall_forall in Hfst. rewrite (Hfst p Hp).
      rewrite list_lookup_middle by done. by eexists.
    + specialize (IH (pre ++ [k])).
      rewrite length_app, Nat.add_1_r, <- app_assoc in IH. by apply IH.
Qed.

(** A joined row without right position has a key the right table does not
    hold. *)
Lemma left_pairs_unmatched pre lk rk p :
  p ∈ left_pairs_from (length pre) lk rk → p.2 = None →
  ∃ k, (pre ++ lk) !! p.1 = Some k ∧ k ∉ rk.
Proof.
  revert pre. induction lk as [|k lk IH]; intros pre; simpl.
  - by intros ?%elem_of_nil.
  - intros [Hp|Hp]%elem_of_app Hnone.
    + exists k. split.
      * pose proof (left_pairs_row_fst (length pre) k rk) as Hfst.
        rewrite Forall_forall in Hfst. rewrite (Hfst p Hp).
        by rewrite list_lookup_middle.
      * unfold left_pairs_row in Hp.
        destruct (matches_from 0 k rk) as [|j js] eqn:Hm.
        -- by eapply matches_from_nil.
        -- apply list_elem_of_fmap in Hp as (j' & -> & _). done.
    + specialize (IH (pre ++ [k])).
      rewrite length_app, Nat.add_1_r, <- app_assoc in IH. by apply IH.
Qed.

(** Some left row has no match exactly when some left key is missing
    from the right keys. *)
Lemma unmatched_spec i lk rk :
  Exists (λ p : nat * option nat, p.2 = None) (left_pairs_from i lk rk)
  ↔ ¬ lk ⊆ rk.
Proof.
  revert i. induction lk as [|k lk IH]; intros i; cbn [left_pairs_from].
  - split; [by intros ?%Exists_nil|].
    intros Hn. destruct Hn. by intros x ?%elem_of_nil.
  - rewrite Exists_app, IH. unfold left_pairs_row.
    destruct (matches_from 0 k rk) as [|j js] eqn:Hm.
    + apply matches_from_nil in Hm. split.
      * intros _ Hsub. apply Hm, Hsub. left.
      * intros _. left. by constructor.
    + assert (k ∈ rk) as Hk.
      { destruct (matches_from_spec 0 k rk j) as (j' & _ & Hj').
        { rewrite Hm. left. }
        by eapply list_elem_of_lookup_2. }
      split.
      * intros [Hex|Hn].
        -- apply Exists_exists in Hex as (q & Hq & Hnone).
           apply list_elem_of_fmap in Hq as (j' & -> & _). done.
        -- intros Hsub. apply Hn. intros x Hx. apply Hsub. by right.
      * intros Hn. right. intros Hsub. apply Hn.
        intros x [->|Hx]%elem_of_cons; [done | by apply Hsub].
Qed.

Lemma reindexed_matched i lk rk d :
  lk ⊆ rk → reindexed (left_pairs_from i lk rk) d = d.
Proof.
  intros Hsub. unfold reindexed, has_unmatched.
  rewrite bool_decide_eq_false_2; [done|]. rewrite unmatched_spec. tauto.
Qed.

Lemma reindexed_lookup (ps : list (nat * option nat)) d j x :
  d !! j = Some x → ∃ y, reindexed ps d !! j = Some y ∧ same_number x y.
Proof.
  intros Hx. unfold reindexed, promote.
  destruct (has_unmatched ps); [|exists x; split; [done|by left]].
  destruct (is_object d); [exists x; split; [done|by left]|].
  exists (promote_cell x). split; [by rewrite list_lookup_fmap, Hx | by right].
Qed.

(** A row of a join: the left row it copies and the right row it is
    matched with, if any. *)
Lemma merge_left_row_inv l r out p h :
  merge_left "host" l r = Ok out → hosts_of out !! p = Some h →
  ∃ lk rk i oj,
    find_col "host" (columns l) = Some lk
    ∧ find_col "host" (columns r) = Some rk
    ∧ left_pairs_from 0 lk rk !! p = Some (i, oj)
    ∧ lk !! i = Some h
    ∧ match oj with
      | Some j => rk !! j = Some h
      | None => h ∉ rk
      end
    ∧ out = mkDF (length (left_pairs_from 0 lk rk))
        (((λ col : column flt,
             (suffix_if (overlap "host" l r) "_x" col.1,
              take_left (left_pairs_from 0 lk rk) col.2)) <$> columns l)
         ++ ((λ col : column flt,
                (suffix_if (overlap "host" l r) "_y" col.1,
                 take_right (left_pairs_from 0 lk rk) col.2))
               <$> filter (λ col : column flt, col.1 ≠ "host") (columns r))).
Proof.
  intros Hm Hp. pose proof (merge_left_row _ _ _ _ _ Hm Hp) as Hrows.
  rewrite (merge_left_host_column _ _ _ Hm) in Hp.
  apply merge_left_inv_rows in Hm as (lk & rk & Hl & Hr & ->); [|done].
  unfold hosts_of in Hp. rewrite Hl, Hr in Hp.
  cbn [default from_option id] in Hp.
  unfold take_left in Hp. rewrite list_lookup_fmap in Hp.
  destruct (left_pairs_from 0 lk rk !! p) as [[i oj]|] eqn:Hps; [|done].
  simpl in Hp. pose proof (list_elem_of_lookup_2 _ _ _ Hps) as Hin.
  destruct (left_pairs_left [] lk rk (i, oj) Hin) as [k Hk].
  simpl in Hk. rewrite Hk in Hp. simpl in Hp. injection Hp as ->.
  exists lk, rk, i, oj. do 4 (split; [done|]). split; [|done].
  destruct oj as [j|].
  - destruct (left_pairs_matched [] lk rk (i, Some j) j Hin eq_refl)
      as (k' & Hi & Hj).
    simpl in Hi. congruence.
  - destruct (left_pairs_unmatched [] lk rk (i, None) Hin eq_refl)
      as (k' & Hi & Hnot).
    simpl in Hi. assert (k' = h) as -> by congruence. done.
Qed.

(** The columns of the left table hold, in a joined row, the cells of one
    left row with the host of the joined row. *)
Lemma merge_left_left_cell l r out p h :
  merge_left "host" l r = Ok out → hosts_of out !! p = Some h →
  ∃ i, hosts_of l !! i = Some h
       ∧ ∀ c d, (c, d) ∈ columns l →
           ∃ d', (suffix_if (overlap "host" l r) "_x" c, d') ∈ columns out
                 ∧ d' !! p = Some (default CNaN (d !! i)).
Proof.
  intros Hm Hp.
  destruct (merge_left_row_inv _ _ _ _ _ Hm Hp)
    as (lk & rk & i & oj & Hl & Hr & Hps & Hi & _ & ->).
  exists i. split; [unfold hosts_of; by rewrite Hl|]. intros c d Hcd.
  exists (take_left (left_pairs_from 0 lk rk) d). split.
  - apply elem_of_app. left. apply list_elem_of_fmap. by exists (c, d).
  - unfold take_left. by rewrite list_lookup_fmap, Hps.
Qed.

(** The columns of the right table hold, in a joined row whose host the
    right table lists, the cells of one right row with that host, promoted
    when some left row has no match; in a joined row whose host the right
    table does not list they hold null. *)
Lemma merge_left_right_cell l r out p h :
  merge_left "host" l r = Ok out → hosts_of out !! p = Some h →
  (h ∉ hosts_of r →
   ∀ c d, (c, d) ∈ columns r → c ≠ "host" →
     ∃ d', (suffix_if (overlap "host" l r) "_y" c, d') ∈ columns out
           ∧ d' !! p = Some CNaN)
  ∧ (h ∈ hosts_of r →
     ∃ j, hosts_of r !! j = Some h
          ∧ ∀ c d, (c, d) ∈ columns r → c ≠ "host" →
              ∃ d', (suffix_if (overlap "host" l r) "_y" c, d') ∈ columns out
                    ∧ d' !! p
                      = Some (default CNaN
                                (reindexed
                                   (left_pairs_from 0 (hosts_of l) (hosts_of r)) d
                                 !! j))).
Proof.
  intros Hm Hp.
  destruct (merge_left_row_inv _ _ _ _ _ Hm Hp)
    as (lk & rk & i & oj & Hl & Hr & Hps & Hi & Hoj & ->).
  unfold hosts_of. rewrite Hl, Hr. cbn [default from_option id].
  assert (∀ c d, (c, d) ∈ columns r → c ≠ "host" →
            (suffix_if (overlap "host" l r) "_y" c,
             take_right (left_pairs_from 0 lk rk) d)
            ∈ columns
                (mkDF (length (left_pairs_from 0 lk rk))
                   (((λ col : column flt,
                        (suffix_if (overlap "host" l r) "_x" col.1,
                         take_left (left_pairs_from 0 lk rk) col.2))
                       <$> columns l)
                    ++ ((λ col : column flt,
                           (suffix_if (overlap "host" l r) "_y" col.1,
                            take_right (left_pairs_from 0 lk rk) col.2))
                          <$> filter (λ col : column flt, col.1 ≠ "host")
                                (columns r))))) as Hcol.
  { intros c d Hcd Hc. apply elem_of_app. right.
    apply list_elem_of_fmap. exists (c, d). split; [done|].
    by apply list_elem_of_filter. }
  split.
  - intros Hh c d Hcd Hc. destruct oj as [j|].
    { exfalso. apply Hh. by eapply list_elem_of_lookup_2. }
    eexists. split; [by apply Hcol|].
    unfold take_right. by rewrite list_lookup_fmap, Hps.
  - intros Hh. destruct oj as [j|]; [|done].
    exists j. split; [done|]. intros c d Hcd Hc.
    eexists. split; [by apply Hcol|].
    unfold take_right. by rewrite list_lookup_fmap, Hps.
Qed.

(** The shape of a join: each left row gives one row per row of the right
    table with its host, and one row when there is none; every column of the
    result has that many entries, whatever the lengths of the columns of the
    two tables were. *)
Theorem merge_left_shape l r out :
  merge_left "host" l r = Ok out →
  nrows out
  = sum_list_with (λ k, 1 `max` occurrences k (hosts_of r))%nat (hosts_of l)
  ∧ (length (hosts_of l) ≤ nrows out)%nat
  ∧ Forall (λ col : column flt, length col.2 = nrows out) (columns out).
Proof.
  intros (lk & rk & Hl & Hr & _ & ->)%merge_left_inv.
  unfold hosts_of. rewrite Hl, Hr. cbn [nrows columns default from_option id].
  rewrite length_left_pairs_from. split; [done|]. split.
  - clear. induction lk as [|k lk IH]; simpl; lia.
  - rewrite <- (length_left_pairs_from 0).
    apply Forall_app. split; apply Forall_fmap, Forall_forall; intros col _;
      simpl; unfold take_left, take_right; by rewrite length_fmap.
Qed.

(** Where the cells of a joined row come from: the columns of the left
    table hold the cells of one of its rows with the host of the joined row.
    For a host name, a string: when the right table lists it, the columns of
    the right table hold the cells of one of its rows with that host, the
    same values, an integer possibly as a float, and the very same cells
    when the right table lists every host of the left table, since nothing is
    promoted then; when the right table does not list it, they hold null. *)
Theorem merge_left_cells l r out p h :
  merge_left "host" l r = Ok out →
  hosts_of out !! p = Some h →
  (∃ i, hosts_of l !! i = Some h
        ∧ ∀ c d, (c, d) ∈ columns l →
            ∃ d', (suffix_if (overlap "host" l r) "_x" c, d') ∈ columns out
                  ∧ d' !! p = Some (default CNaN (d !! i)))
  ∧ (is_str h = true →
     (h ∈ hosts_of r →
      ∃ j, hosts_of r !! j = Some h
           ∧ ∀ c d x, (c, d) ∈ columns r → c ≠ "host" → d !! j = Some x →
               ∃ d' y,
                 (suffix_if (overlap "host" l r) "_y" c, d') ∈ columns out
                 ∧ d' !! p = Some y
                 ∧ same_number x y
                 ∧ (hosts_of l ⊆ hosts_of r → y = x))
     ∧ (h ∉ hosts_of r →
        ∀ c d, (c, d) ∈ columns r → c ≠ "host" →
          ∃ d', (suffix_if (overlap "host" l r) "_y" c, d') ∈ columns out
                ∧ d' !! p = Some CNaN)).
Proof.
  intros Hm Hp. split; [by eapply merge_left_left_cell|]. intros _.
  destruct (merge_left_right_cell _ _ _ _ _ Hm Hp) as [Hnone Hsome].
  split; [|done]. intros Hh.
  destruct (Hsome Hh) as (j & Hj & Hcells). exists j. split; [done|].
  intros c d x Hcd Hc Hx. destruct (Hcells c d Hcd Hc) as (d' & Hin & Hd').
  destruct (reindexed_lookup
              (left_pairs_from 0 (hosts_of l) (hosts_of r)) d j x Hx)
    as (y & Hy & Hsame).
  exists d', y. split; [done|]. rewrite Hy in Hd'. split; [done|].
  split; [done|]. intros Hsub.
  rewrite reindexed_matched in Hy by done. congruence.
Qed.

(** *** Tables that list each host once *)

Lemma matches_from_absent j k rk : k ∉ rk → matches_from j k rk = [].
Proof.
  revert j. induction rk as [|k' rk IH]; intros j Hk; [done|].
  apply not_elem_of_cons in Hk as [Hne Hk]. cbn [matches_from].
  rewrite bool_decide_eq_false_2 by done. by apply IH.
Qed.

Lemma left_pairs_row_unique i k rk :
  NoDup rk → ∃ oj, left_pairs_row i k rk = [(i, oj)].
Proof.
  intros Hnd. unfold left_pairs_row.
  assert (∀ j, length (matches_from j k rk) ≤ 1)%nat as Hlen.
  { induction Hnd as [|k' rk Hfresh Hnd IH]; intros j; [simpl; lia|].
    cbn [matches_from]. case_bool_decide as Hk.
    - subst. rewrite matches_from_absent by done. simpl. lia.
    - apply IH. }
  specialize (Hlen 0%nat).
  destruct (matches_from 0 k rk) as [|j [|j' js]]; [by eexists..|].
  simpl in Hlen. lia.
Qed.

Lemma take_left_unique pre lk rk :
  NoDup rk →
  take_left (left_pairs_from (length pre) lk rk) (pre ++ lk) = lk
  ∧ length (left_pairs_from (length pre) lk rk) = length lk.
Proof.
  intros Hnd. revert pre. induction lk as [|k lk IH]; intros pre; [done|].
  cbn [left_pairs_from].
  destruct (left_pairs_row_unique (length pre) k rk Hnd) as [oj ->].
  specialize (IH (pre ++ [k])).
  rewrite length_app, Nat.add_1_r, <- app_assoc in IH. destruct IH as [IH1 IH2].
  unfold take_left in *. cbn [app fmap list_fmap fst length].
  rewrite list_lookup_middle by done. simpl. split; [|by rewrite IH2].
  f_equal. exact IH1.
Qed.

Lemma merge_left_unique l r out :
  merge_left "host" l r = Ok out → NoDup (hosts_of r) →
  hosts_of out = hosts_of l ∧ nrows out = length (hosts_of l).
Proof.
  intros Hm Hnd. rewrite (merge_left_host_column _ _ _ Hm).
  apply merge_left_inv in Hm as (lk & rk & Hl & Hr & _ & ->).
  unfold hosts_of in *. rewrite Hl, Hr in *.
  cbn [default from_option id nrows] in *.
  apply (take_left_unique [] lk rk Hnd).
Qed.

Lemma assemble_loop_unique rest datadf out :
  length (columns datadf) ≠ 0%nat →
  Forall (λ t, NoDup (fillna_col (hosts_of t))) rest →
  assemble_loop datadf rest = Ok out →
  hosts_of out = hosts_of datadf
  ∧ (rest ≠ [] → nrows out = length (hosts_of datadf)).
Proof.
  revert datadf. induction rest as [|raw rest IH]; intros datadf Hcols Hall.
  - simpl. by intros [= <-].
  - apply Forall_cons in Hall as [Hraw Hrest]. cbn [assemble_loop].
    destruct (drop_scaffold (fillna0 raw)) as [tmpfeat|] eqn:Hp; [|done].
    cbn [mbind result_bind]. rewrite bool_decide_eq_false_2 by done.
    destruct (merge_left "host" datadf tmpfeat) as [datadf'|] eqn:Hm; [|done].
    cbn [mbind result_bind]. intros Hout.
    pose proof (processed_hosts _ _ Hp) as Htmp.
    destruct (merge_left_unique _ _ _ Hm) as [Hh Hn]; [by rewrite Htmp|].
    destruct (IH datadf' (merge_left_has_columns _ _ _ Hm) Hrest Hout)
      as [Hh' Hn'].
    split; [congruence|]. intros _.
    destruct rest as [|raw' rest'].
    + simpl in Hout. injection Hout as <-. done.
    + rewrite Hn' by done. congruence.
Qed.

(** When no table after the first lists a host twice, the assembled table
    has the hosts of the first table, row for row and in its order, so one
    row for each of its rows. *)
Theorem assemble_unique_hosts raw rest out :
  (∃ c, c ∈ labels raw ∧ c ∉ drop_col) →
  Forall (λ t, NoDup (fillna_col (hosts_of t))) rest →
  assemble (raw :: rest) = Ok out →
  hosts_of out = fillna_col (hosts_of raw)
  ∧ (rest ≠ [] → nrows out = length (hosts_of raw)).
Proof.
  intros (c & Hc & Hkeep) Hall. unfold assemble. cbn [assemble_loop].
  rewrite (bool_decide_eq_true_2 (length (columns empty_frame) = 0%nat)) by done.
  destruct (drop_scaffold (fillna0 raw)) as [tmpfeat|] eqn:Hp; [|done].
  cbn [mbind result_bind]. intros Hout.
  pose proof (processed_hosts _ _ Hp) as Htmp.
  destruct (assemble_loop_unique rest tmpfeat out) as [H1 H2];
    [by eapply processed_has_columns | done | done |].
  rewrite H1, Htmp. split; [done|]. intros Hne.
  rewrite H2, Htmp by done. unfold fillna_col. by rewrite length_fmap.
Qed.
End JoinRows.

Lemma merge_left_shape_witness :
  nrows JoinSample.joined = 3%nat
  ∧ (length (hosts_of JoinSample.left) ≤ nrows JoinSample.joined)%nat
  ∧ Forall (λ col : column Z, length col.2 = nrows JoinSample.joined)
      (columns JoinSample.joined).
Proof.
  destruct (merge_left_shape JoinSample.left JoinSample.right JoinSample.joined)
    as (Hn & Hle & Hall); [vm_compute; reflexivity|].
  split; [rewrite Hn; reflexivity|]. split; [exact Hle | exact Hall].
Defined.

Lemma merge_left_cells_witness :
  ∃ j x d' y,
    hosts_of JoinSample.right !! j = Some (CStr "a.example.com")
    ∧ [CInt (flt:=Z) 10; CInt 11; CInt 12] !! j = Some x
    ∧ ("occ", d') ∈ columns JoinSample.joined
    ∧ d' !! 1%nat = Some y
    ∧ same_number x y.
Proof.
  destruct (merge_left_cells JoinSample.left JoinSample.right JoinSample.joined
              1 (CStr "a.example.com")) as (_ & Hr);
    [vm_compute; reflexivity | reflexivity |].
  destruct Hr as [Hr _]; [reflexivity|].
  destruct Hr as (j & Hj & Hcells); [left|].
  assert (∃ x, [CInt (flt:=Z) 10; CInt 11; CInt 12] !! j = Some x) as [x Hx].
  { destruct j as [|[|[|j]]]; [by eexists..|discriminate Hj]. }
  destruct (Hcells "occ" [CInt 10; CInt 11; CInt 12] x)
    as (d' & y & Hin & Hd' & Hsame & _);
    [right; left | discriminate | exact Hx |].
  exists j, x, d', y. split; [exact Hj|]. split; [exact Hx|].
  split; [exact Hin|]. split; [exact Hd' | exact Hsame].
Defined.

Lemma assemble_unique_hosts_witness :
  hosts_of (mkDF 1 [("host", [CStr (flt:=Z) "a.example.com"]);
                    ("cntFQDN", [CInt 1]);
                    ("maxCisco", [CFloat 0%Z]);
                    ("sum_ipDom", [CNaN])])
  = fillna_col (hosts_of Sample.feat_domgraph)
  ∧ 1%nat = length (hosts_of Sample.feat_domgraph).
Proof.
  destruct (assemble_unique_hosts Sample.feat_domgraph [Sample.feat_ipgraph]
              (mkDF 1 [("host", [CStr "a.example.com"]);
                       ("cntFQDN", [CInt 1]);
                       ("maxCisco", [CFloat 0%Z]);
                       ("sum_ipDom", [CNaN])])) as [Hh Hn].
  - exists "host". split; apply (bool_decide_unpack _); by vm_compute.
  - repeat constructor. intros ?%elem_of_nil. done.
  - vm_compute. reflexivity.
  - split; [exact Hh|]. apply Hn. discriminate.
Defined.

(** *** What the assembled table is made of *)

Section AssembledColumns.
Context {flt : Type} `{EqDecision flt} `{Pandas flt}.
Implicit Types (l r df raw datadf out : DataFrame flt).
Implicit Types (feats rest : list (DataFrame flt)) (c : string).

Lemma last2_append c a b :
  last2 (String.append c (String a (String b EmptyString)))
  = String a (String b EmptyString).
Proof.
  induction c as [|x c IH]; [done|].
  destruct c as [|y c]; [done|].
  change (last2 (String x (String.append (String y c)
                             (String a (String b EmptyString)))))
    with (match String.append c (String a (String b EmptyString)) with
          | EmptyString =>
              String x (String.append (String y c)
                          (String a (String b EmptyString)))
          | String _ _ =>
              last2 (String.append (String y c)
                       (String a (String b EmptyString)))
          end).
  destruct c; exact IH.
Qed.

Lemma suffix_not_scaffold (ov : list string) sfx c :
  sfx = "_x" ∨ sfx = "_y" → c ∉ drop_col → suffix_if ov sfx c ∉ drop_col.
Proof.
  intros Hsfx Hc. unfold suffix_if. case_bool_decide; [|done].
  intros Hin.
  assert (last2 (String.append c sfx) = sfx) as Hlast
    by (destruct Hsfx as [-> | ->]; apply last2_append).
  assert (∀ d, d ∈ drop_col → last2 d ≠ sfx) as Hno.
  { intros d Hd. unfold drop_col in Hd.
    repeat (apply elem_of_cons in Hd as [->|Hd];
            [destruct Hsfx as [-> | ->]; discriminate|]).
    by apply elem_of_nil in Hd. }
  by apply (Hno _ Hin).
Qed.

Lemma merge_left_no_scaffold l r out :
  merge_left "host" l r = Ok out →
  (∀ c, c ∈ labels l → c ∉ drop_col) → (∀ c, c ∈ labels r → c ∉ drop_col) →
  ∀ c, c ∈ labels out → c ∉ drop_col.
Proof.
  intros Hm Hl Hr c Hc.
  destruct (merge_left_label_from _ _ _ _ Hm Hc) as [(c' & Hc' & ->)|(c' & Hc' & ->)];
    apply suffix_not_scaffold; auto.
Qed.

Lemma processed_no_scaffold raw tmpfeat :
  drop_scaffold (fillna0 raw) = Ok tmpfeat →
  ∀ c, c ∈ labels tmpfeat → c ∉ drop_col.
Proof.
  intros (_ & -> & _)%processed_inv c [Hc _]%list_elem_of_filter. done.
Qed.

Lemma assemble_loop_no_scaffold feats datadf out :
  (∀ c, c ∈ labels datadf → c ∉ drop_col) →
  assemble_loop datadf feats = Ok out →
  ∀ c, c ∈ labels out → c ∉ drop_col.
Proof.
  revert datadf. induction feats as [|raw rest IH]; intros datadf Hd.
  - simpl. by intros [= <-].
  - cbn [assemble_loop].
    destruct (drop_scaffold (fillna0 raw)) as [tmpfeat|] eqn:Hp; [|done].
    cbn [mbind result_bind]. case_bool_decide.
    + apply IH. by eapply processed_no_scaffold.
    + destruct (merge_left "host" datadf tmpfeat) as [datadf'|] eqn:Hm; [|done].
      cbn [mbind result_bind]. apply IH.
      eapply merge_left_no_scaffold; [done..|]. by eapply processed_no_scaffold.
Qed.

(** No column of the assembled table carries a label of [drop_col], also
    when the joins had to rename columns. *)
Theorem assemble_no_scaffold feats out c :
  assemble feats = Ok out → c ∈ labels out → c ∉ drop_col.
Proof.
  intros Hout. apply (assemble_loop_no_scaffold feats empty_frame); [|done].
  by intros c' ?%elem_of_nil.
Qed.

(** **** The data of the dropped columns *)

Lemma same_except_fillna0 c df df' :
  same_except c df df' → same_except c (fillna0 df) (fillna0 df').
Proof.
  intros [Hn Hcols]. split; [done|]. unfold fillna0. cbn [columns].
  induction Hcols as [|c1 c2 l1 l2 [Hl Hd] _ IH]; [constructor|].
  rewrite !fmap_cons. constructor; [|done]. simpl. split; [done|].
  intros Hne. by rewrite Hd.
Qed.

Lemma same_except_absent c df df' :
  same_except c df df' → c ∉ labels df → df = df'.
Proof.
  destruct df as [n cols], df' as [n' cols']. intros [Hn Hcols] Hc.
  simpl in *. subst n'. f_equal. unfold labels in Hc. simpl in Hc.
  induction Hcols as [|[a1 d1] [a2 d2] l1 l2 [Hl Hd] _ IH]; [done|].
  simpl in *. apply not_elem_of_cons in Hc as [Hne Hc]. subst a2.
  rewrite Hd by done. f_equal. by apply IH.
Qed.

Lemma same_except_drop c c0 df df' df1 :
  same_except c df df' → drop_column c0 df = Ok df1 →
  ∃ df1', drop_column c0 df' = Ok df1' ∧ same_except c df1 df1'.
Proof.
  intros Hs Hd. pose proof (same_except_labels _ _ _ Hs) as Hlab.
  apply drop_column_inv in Hd as [Hin ->].
  unfold drop_column. rewrite <- Hlab, bool_decide_eq_true_2 by done.
  eexists. split; [done|]. destruct Hs as [Hn Hcols]. split; [done|].
  cbn [columns].
  induction Hcols as [|c1 c2 l1 l2 [Hl Hdat] _ IH]; [constructor|].
  rewrite !filter_cons. rewrite <- Hl.
  destruct (decide (c1.1 ≠ c0)); [|done]. by constructor.
Qed.

Lemma same_except_drop_raise c c0 df df' e :
  same_except c df df' → drop_column c0 df = Raise e →
  drop_column c0 df' = Raise e.
Proof.
  intros Hs. pose proof (same_except_labels _ _ _ Hs) as Hlab.
  unfold drop_column. rewrite <- Hlab. by case_bool_decide.
Qed.

Lemma drop_loop_same_except c (ls : list string) df df' :
  c ∈ drop_col → same_except c df df' → c ∈ ls ∨ c ∉ labels df →
  drop_loop ls df = drop_loop ls df'.
Proof.
  intros Hc. revert df df'. induction ls as [|c0 ls IH]; intros df df' Hs Hcase.
  { destruct Hcase as [?%elem_of_nil|Hno]; [done|].
    by rewrite (same_except_absent _ _ _ Hs Hno). }
  cbn [drop_loop]. case_bool_decide as Hc0.
  - destruct (decide (c0 = c)) as [->|Hne].
    + by rewrite (drop_column_same_except _ _ _ Hs).
    + destruct (drop_column c0 df) as [df1|e] eqn:Hd.
      * destruct (same_except_drop _ _ _ _ _ Hs Hd) as (df1' & -> & Hs1).
        cbn [mbind result_bind]. apply IH; [done|].
        destruct Hcase as [[?|?]%elem_of_cons|Hno]; [congruence|by left|].
        right. apply drop_column_inv in Hd as [_ ->].
        rewrite labels_mkDF_filter. by intros [_ ?]%list_elem_of_filter.
      * by rewrite (same_except_drop_raise _ _ _ _ _ Hs Hd).
  - apply IH; [done|].
    destruct Hcase as [[?|?]%elem_of_cons|Hno]; [congruence|by left|by right].
Qed.

Lemma drop_scaffold_same_except c df df' :
  c ∈ drop_col → same_except c df df' →
  drop_scaffold (fillna0 df) = drop_scaffold (fillna0 df').
Proof.
  intros Hc Hs%same_except_fillna0. unfold drop_scaffold.
  rewrite <- (same_except_labels _ _ _ Hs).
  apply (drop_loop_same_except c); [done..|].
  destruct (decide (c ∈ labels (fillna0 df))); [by left|by right].
Qed.

(** The assembled table does not depend on what the dropped columns hold:
    feature tables that differ only in the data of a column labelled in
    [drop_col] are assembled to the same table. *)
Theorem assemble_ignores_scaffold c feats feats' :
  c ∈ drop_col → Forall2 (same_except c) feats feats' →
  assemble feats = assemble feats'.
Proof.
  intros Hc Hall. unfold assemble. generalize (empty_frame (flt:=flt)).
  induction Hall as [|raw raw' rest rest' Hs _ IH]; intros datadf; [done|].
  cbn [assemble_loop]. rewrite (drop_scaffold_same_except c raw raw') by done.
  destruct (drop_scaffold (fillna0 raw')) as [tmpfeat|]; [|done].
  cbn [mbind result_bind]. case_bool_decide; [apply IH|].
  destruct (merge_left "host" datadf tmpfeat); [|done].
  cbn [mbind result_bind]. apply IH.
Qed.
End AssembledColumns.

Lemma assemble_no_scaffold_witness :
  "cntFQDN" ∈ labels (mkDF 1 [("host", [CStr (flt:=Z) "a.example.com"]);
                              ("cntFQDN", [CInt 1]);
                              ("maxCisco", [CFloat 0%Z]);
                              ("sum_ipDom", [CNaN])])
  ∧ "cntFQDN" ∉ drop_col.
Proof.
  assert ("cntFQDN" ∈ labels (mkDF 1 [("host", [CStr (flt:=Z) "a.example.com"]);
                                      ("cntFQDN", [CInt 1]);
                                      ("maxCisco", [CFloat 0%Z]);
                                      ("sum_ipDom", [CNaN])])) as Hin.
  { apply (bool_decide_unpack _). vm_compute. exact I. }
  split; [exact Hin|].
  apply (assemble_no_scaffold [Sample.feat_domgraph; Sample.feat_ipgraph]
           (mkDF 1 [("host", [CStr "a.example.com"]);
                    ("cntFQDN", [CInt 1]);
                    ("maxCisco", [CFloat 0%Z]);
                    ("sum_ipDom", [CNaN])]) "cntFQDN");
    [vm_compute; reflexivity | exact Hin].
Defined.

Lemma assemble_ignores_scaffold_witness :
  Sample.feat_domgraph ≠ JoinSample.feat_domgraph'
  ∧ assemble [Sample.feat_domgraph; Sample.feat_ipgraph]
    = assemble [JoinSample.feat_domgraph'; Sample.feat_ipgraph].
Proof.
  split; [discriminate|].
  apply (assemble_ignores_scaffold "domain").
  - apply (bool_decide_unpack _). vm_compute. exact I.
  - constructor.
    + split; [reflexivity|].
      repeat (constructor; [split; [reflexivity | simpl; try done]|]).
      constructor.
    + constructor; [|constructor]. split; [reflexivity|].
      repeat (constructor; [split; [reflexivity | simpl; try done]|]).
      constructor.
Defined.

(** *** The columns of the assembled table *)

Section AssembledLabels.
Context {flt : Type} `{EqDecision flt} `{Pandas flt}.
Implicit Types (l r df raw datadf out : DataFrame flt).
Implicit Types (feats rest : list (DataFrame flt)) (c : string).

Lemma suffix_if_nil sfx (ls : list string) : suffix_if [] sfx <$> ls = ls.
Proof.
  induction ls as [|c ls IH]; [done|]. rewrite fmap_cons, IH. done.
Qed.

Lemma processed_joined_labels raw tmpfeat :
  drop_scaffold (fillna0 raw) = Ok tmpfeat →
  labels tmpfeat = kept_labels raw
  ∧ filter (λ c, c ≠ "host") (labels tmpfeat) = joined_labels raw.
Proof.
  intros (_ & -> & _)%processed_inv. split; [done|].
  unfold joined_labels. rewrite list_filter_filter.
  apply list_filter_iff. naive_solver.
Qed.

Lemma merge_left_rows_kept l r out :
  merge_left "host" l r = Ok out → hosts_of l ≠ [] → hosts_of out ≠ [].
Proof.
  intros Hm Hl Hout. destruct (hosts_of l) as [|h hs] eqn:Hh; [done|].
  assert (h ∈ hosts_of out) as Hin
    by (apply (merge_left_hosts _ _ _ h Hm); rewrite Hh; left).
  rewrite Hout in Hin. by apply elem_of_nil in Hin.
Qed.

Lemma no_overlap datadf tmpfeat (ls : list string) :
  NoDup ((labels datadf ++ filter (λ c, c ≠ "host") (labels tmpfeat)) ++ ls) →
  overlap "host" datadf tmpfeat = [].
Proof.
  intros ((_ & Hdisj & _)%NoDup_app & _)%NoDup_app. unfold overlap.
  destruct (filter _ (labels datadf)) as [|c ov] eqn:Hf; [done|]. exfalso.
  assert (c ∈ filter (λ c0 : string, c0 ∈ labels tmpfeat ∧ c0 ≠ "host")
                (labels datadf)) as Hc by (rewrite Hf; left).
  apply list_elem_of_filter in Hc as [[Hin Hne] Hl].
  apply (Hdisj c Hl). by apply list_elem_of_filter.
Qed.

Lemma assemble_loop_labels rest datadf out :
  length (columns datadf) ≠ 0%nat → hosts_of datadf ≠ [] →
  NoDup (labels datadf ++ (rest ≫= joined_labels)) →
  assemble_loop datadf rest = Ok out →
  labels out = labels datadf ++ (rest ≫= joined_labels).
Proof.
  revert datadf. induction rest as [|raw rest IH]; intros datadf Hcols Hrows Hnd.
  - simpl. intros [= <-]. by rewrite app_nil_r.
  - cbn [assemble_loop].
    destruct (drop_scaffold (fillna0 raw)) as [tmpfeat|] eqn:Hp; [|done].
    cbn [mbind result_bind]. rewrite bool_decide_eq_false_2 by done.
    destruct (merge_left "host" datadf tmpfeat) as [datadf'|] eqn:Hm; [|done].
    cbn [mbind result_bind]. intros Hout.
    destruct (processed_joined_labels _ _ Hp) as [Hkept Hjoined].
    rewrite bind_cons, app_assoc in Hnd. rewrite bind_cons, app_assoc.
    assert (overlap "host" datadf tmpfeat = []) as Hov
      by (eapply no_overlap; by rewrite Hjoined).
    assert (labels datadf' = labels datadf ++ joined_labels raw) as Hlab.
    { rewrite (merge_left_labels _ _ _ Hm Hrows), Hov, !suffix_if_nil.
      by rewrite Hjoined. }
    rewrite <- Hlab.
    apply IH; [by eapply merge_left_has_columns | by eapply merge_left_rows_kept
              | by rewrite Hlab | done].
Qed.

(** When the first table has rows and the feature names are distinct, the
    assembled table has the columns of the tables in the order they are read:
    those of the first table, then those of each later table without its
    host column, the scaffolding columns left out and no column renamed. *)
Theorem assemble_labels raw rest out :
  (∃ c, c ∈ labels raw ∧ c ∉ drop_col) →
  hosts_of raw ≠ [] →
  NoDup (kept_labels raw ++ (rest ≫= joined_labels)) →
  assemble (raw :: rest) = Ok out →
  labels out = kept_labels raw ++ (rest ≫= joined_labels).
Proof.
  intros (c & Hc & Hkeep) Hrows Hnd. unfold assemble. cbn [assemble_loop].
  rewrite (bool_decide_eq_true_2 (length (columns empty_frame) = 0%nat)) by done.
  destruct (drop_scaffold (fillna0 raw)) as [tmpfeat|] eqn:Hp; [|done].
  cbn [mbind result_bind]. intros Hout.
  destruct (processed_joined_labels _ _ Hp) as [Hkept _].
  rewrite <- Hkept.
  apply assemble_loop_labels; [by eapply processed_has_columns | |
                               by rewrite Hkept | done].
  rewrite (processed_hosts _ _ Hp). unfold fillna_col.
  by destruct (hosts_of raw).
Qed.

(** **** A first table without rows *)

Lemma merge_left_labels_empty l r out :
  merge_left "host" l r = Ok out → hosts_of l = [] →
  labels out
  = (suffix_if (overlap "host" l r) "_x"
       <$> filter (λ c, c ≠ "host") (labels l))
    ++ (suffix_if (overlap "host" l r) "_y" <$> labels r)
  ∧ hosts_of out = [].
Proof.
  intros Hm Hnil. split.
  - apply merge_left_inv in Hm as (lk & rk & Hl & _ & _ & ->).
    unfold hosts_of in Hnil. rewrite Hl in Hnil. simpl in Hnil. subst lk.
    unfold left_columns, right_columns.
    rewrite !bool_decide_eq_true_2 by done.
    unfold labels. cbn [columns]. rewrite fmap_app, <- !list_fmap_compose.
    f_equal. clear Hl. generalize (overlap "host" l r). intros ov.
    induction (columns l) as [|col cols IH]; [done|].
    rewrite fmap_cons, !filter_cons. cbn [fst].
    destruct (decide (col.1 ≠ "host")); by rewrite ?fmap_cons, IH.
  - rewrite (merge_left_host_column _ _ _ Hm), Hnil. done.
Qed.

Lemma joined_of_kept raw :
  filter (λ c, c ≠ "host") (kept_labels raw) = joined_labels raw.
Proof.
  unfold kept_labels, joined_labels. rewrite list_filter_filter.
  apply list_filter_iff. naive_solver.
Qed.

Lemma filter_host_idemp (ls : list string) :
  filter (λ c, c ≠ "host") (filter (λ c, c ≠ "host") ls)
  = filter (λ c, c ≠ "host") ls.
Proof. rewrite list_filter_filter. apply list_filter_iff. naive_solver. Qed.

Lemma no_overlap_empty datadf tmpfeat (ls : list string) :
  NoDup ((filter (λ c, c ≠ "host") (labels datadf)
          ++ filter (λ c, c ≠ "host") (labels tmpfeat)) ++ ls) →
  overlap "host" datadf tmpfeat = [].
Proof.
  intros ((_ & Hdisj & _)%NoDup_app & _)%NoDup_app. unfold overlap.
  apply elem_of_nil_inv. intros c [[Hin Hne] Hl]%list_elem_of_filter.
  apply (Hdisj c); by apply list_elem_of_filter.
Qed.

Lemma bind_joined_one last :
  [last] ≫= joined_labels (flt:=flt) = joined_labels last.
Proof. rewrite bind_cons. simpl. by rewrite app_nil_r. Qed.

Lemma assemble_loop_labels_empty rest last datadf out :
  length (columns datadf) ≠ 0%nat → hosts_of datadf = [] →
  NoDup (filter (λ c, c ≠ "host") (labels datadf)
         ++ ((rest ++ [last]) ≫= joined_labels)) →
  assemble_loop datadf (rest ++ [last]) = Ok out →
  labels out
  = filter (λ c, c ≠ "host") (labels datadf)
    ++ (rest ≫= joined_labels) ++ kept_labels last.
Proof.
  revert datadf.
  induction rest as [|raw rest IH]; intros datadf Hcols Hrows Hnd;
    cbn [app assemble_loop].
  - destruct (drop_scaffold (fillna0 last)) as [tmpfeat|] eqn:Hp; [|done].
    cbn [mbind result_bind]. rewrite bool_decide_eq_false_2 by done.
    destruct (merge_left "host" datadf tmpfeat) as [datadf'|] eqn:Hm; [|done].
    cbn [mbind result_bind]. intros [= <-].
    destruct (processed_joined_labels _ _ Hp) as [Hkept Hjoined].
    cbn [app] in Hnd. rewrite bind_joined_one in Hnd.
    assert (overlap "host" datadf tmpfeat = []) as Hov.
    { apply (no_overlap_empty _ _ []). by rewrite Hjoined, app_nil_r. }
    destruct (merge_left_labels_empty _ _ _ Hm Hrows) as [-> _].
    by rewrite Hov, !suffix_if_nil, Hkept.
  - destruct (drop_scaffold (fillna0 raw)) as [tmpfeat|] eqn:Hp; [|done].
    cbn [mbind result_bind]. rewrite bool_decide_eq_false_2 by done.
    destruct (merge_left "host" datadf tmpfeat) as [datadf'|] eqn:Hm; [|done].
    cbn [mbind result_bind]. intros Hout.
    destruct (processed_joined_labels _ _ Hp) as [Hkept Hjoined].
    cbn [app] in Hnd. rewrite bind_cons, app_assoc in Hnd.
    assert (overlap "host" datadf tmpfeat = []) as Hov
      by (eapply no_overlap_empty; by rewrite Hjoined).
    destruct (merge_left_labels_empty _ _ _ Hm Hrows) as [Hlab Hrows'].
    rewrite Hov, !suffix_if_nil, Hkept in Hlab.
    assert (filter (λ c, c ≠ "host") (labels datadf')
            = filter (λ c, c ≠ "host") (labels datadf) ++ joined_labels raw)
      as Hlab'.
    { by rewrite Hlab, filter_app, filter_host_idemp, joined_of_kept. }
    rewrite (IH datadf'); [|by eapply merge_left_has_columns | done
                           | by rewrite Hlab' | done].
    by rewrite Hlab', bind_cons, <- !app_assoc.
Qed.

(** When the first table has no rows, [merge] takes the host column from
    the right table at every join: in the assembled table the host column
    stands where the last table has it, behind the feature columns of all
    the tables before. *)
Theorem assemble_labels_no_rows raw rest last out :
  (∃ c, c ∈ labels raw ∧ c ∉ drop_col) →
  hosts_of raw = [] →
  NoDup (joined_labels raw ++ ((rest ++ [last]) ≫= joined_labels)) →
  assemble (raw :: rest ++ [last]) = Ok out →
  labels out
  = joined_labels raw ++ (rest ≫= joined_labels) ++ kept_labels last.
Proof.
  intros (c & Hc & Hkeep) Hrows Hnd. unfold assemble. cbn [assemble_loop].
  rewrite (bool_decide_eq_true_2 (length (columns empty_frame) = 0%nat)) by done.
  destruct (drop_scaffold (fillna0 raw)) as [tmpfeat|] eqn:Hp; [|done].
  cbn [mbind result_bind]. intros Hout.
  destruct (processed_joined_labels _ _ Hp) as [Hkept Hjoined].
  rewrite <- Hjoined.
  apply assemble_loop_labels_empty;
    [by eapply processed_has_columns | | by rewrite Hjoined | done].
  by rewrite (processed_hosts _ _ Hp), Hrows.
Qed.
End AssembledLabels.

(** On tables with the columns of the recorded run the assembly gives the
    71 columns that cell-23 printed, in that order. *)
Lemma assemble_labels_witness :
  ∃ out, assemble Recorded.feats = Ok out
         ∧ labels out = Recorded.datadf_columns
         ∧ length (labels out) = 71%nat.
Proof.
  destruct (assemble Recorded.feats) as [out|] eqn:Hout;
    [|vm_compute in Hout; discriminate Hout].
  exists out. split; [reflexivity|].
  assert (labels out = Recorded.datadf_columns) as Hlab.
  { rewrite (assemble_labels (Recorded.table_of Recorded.columns_domgraph)
               (Recorded.table_of
                  <$> [Recorded.columns_ipgraph; Recorded.columns_histmal;
                       Recorded.columns_hist; Recorded.columns_fqdn;
                       Recorded.columns_per; Recorded.columns_len2mal])
               out).
    - vm_compute. reflexivity.
    - exists "host". split; apply (bool_decide_unpack _); by vm_compute.
    - discriminate.
    - apply (bool_decide_unpack _). by vm_compute.
    - exact Hout. }
  split; [exact Hlab|]. rewrite Hlab. reflexivity.
Defined.

(** On the tables of the recorded run emptied of their rows, the host
    column comes out as column 67 of 71, in front of the three columns of
    the last table. *)
Lemma assemble_labels_no_rows_witness :
  ∃ out, assemble Recorded.empty_feats = Ok out
         ∧ length (labels out) = 71%nat
         ∧ labels out !! 0%nat = Some "cntMalFQDNs"
         ∧ labels out !! 67%nat = Some "host"
         ∧ labels out !! 68%nat = Some "minlen2malFQDN".
Proof.
  destruct (assemble Recorded.empty_feats) as [out|] eqn:Hout;
    [|vm_compute in Hout; discriminate Hout].
  exists out. split; [reflexivity|].
  rewrite (assemble_labels_no_rows
             (Recorded.empty_table_of Recorded.columns_domgraph)
             (Recorded.empty_table_of
                <$> [Recorded.columns_ipgraph; Recorded.columns_histmal;
                     Recorded.columns_hist; Recorded.columns_fqdn;
                     Recorded.columns_per])
             (Recorded.empty_table_of Recorded.columns_len2mal) out).
  - repeat split; vm_compute; reflexivity.
  - exists "host". split; apply (bool_decide_unpack _); by vm_compute.
  - reflexivity.
  - apply (bool_decide_unpack _). by vm_compute.
  - exact Hout.
Defined.

(** *** The cells of the assembled table *)

Section AssembledCells.
Context {flt : Type} `{EqDecision flt} `{Pandas flt}.
Implicit Types (l r df raw datadf out t : DataFrame flt).
Implicit Types (feats rest : list (DataFrame flt)) (c : string).
Implicit Types (d : list (cell flt)) (h x y : cell flt).














End AssembledCells.




(** *** How a run of the notebook ends *)

Section RunOutcome.
Context {world : Type}.
Variable perform : pass → world → result world.

Lemma run_outcome prog w :
  match (run perform prog w).2 with
  | Ok _ => (run perform prog w).1 = prog
  | Raise _ =>
      ∃ pre p post, prog = pre ++ p :: post
                    ∧ (run perform prog w).1 = pre ++ [p]
  end.
Proof.
  revert w. induction prog as [|p prog IH]; intros w; [done|].
  change (run perform (p :: prog) w) with
    (match perform p w with
     | Ok w' => let '(tr, r) := run perform prog w' in (p :: tr, r)
     | Raise e => ([p], Raise e)
     end).
  destruct (perform p w) as [w'|e].
  - specialize (IH w'). destruct (run perform prog w') as [tr [w''|e]];
      simpl in *.
    + by f_equal.
    + destruct IH as (pre & q & post & -> & ->). by exists (p :: pre), q, post.
  - simpl. by exists [], p, prog.
Qed.

(** A run that completes has made every call of the notebook once, in
    order.  A run that stops has made the calls up to the one that raised and
    none after it; when that call is one of the six calls on the database
    handle before [dbhandler.close()], the handle is never closed. *)
Theorem notebook_run_outcome w :
  match (run_notebook perform w).2 with
  | Ok _ => notebook_trace perform w = notebook_program
  | Raise _ =>
      ∃ pre p post,
        notebook_program = pre ++ p :: post
        ∧ notebook_trace perform w = pre ++ [p]
        ∧ (p ∈ db_calls → CloseDb ∉ notebook_trace perform w)
  end.
Proof.
  unfold notebook_trace, run_notebook.
  pose proof (run_outcome notebook_program w) as H.
  destruct (run perform notebook_program w).2 as [w'|e]; [done|].
  destruct H as (pre & p & post & Hprog & Htr).
  exists pre, p, post. split; [done|]. split; [done|].
  rewrite Htr. intros Hp Hclose.
  pose proof notebook_program_NoDup as Hnd. rewrite Hprog in Hnd.
  assert (CloseDb ∈ pre) as Hpre.
  { apply elem_of_app in Hclose as [?|Hc%list_elem_of_singleton]; [done|].
    subst p. revert Hp. apply (bool_decide_unpack _). by vm_compute. }
  assert (∀ q, q ∈ db_calls → q ∈ pre ++ p :: post →
               CloseDb ∈ pre → q ∈ pre) as Hbefore.
  { intros q Hq Hin Hc.
    apply list_elem_of_lookup_1 in Hc as [i Hi].
    apply elem_of_app in Hin as [?|Hin]; [done|]. exfalso.
    apply list_elem_of_lookup_1 in Hin as [j Hj].
    assert ((pre ++ p :: post) !! i = Some CloseDb) as Hi'
      by (by apply lookup_app_l_Some).
    assert ((pre ++ p :: post) !! (length pre + j)%nat = Some q) as Hj'
      by (by rewrite lookup_app_r, Nat.add_comm, Nat.add_sub by lia).
    apply lookup_lt_Some in Hi as Hlt.
    rewrite <- Hprog in Hi', Hj'.
    revert Hq Hi' Hj' Hlt. generalize (length pre). intros n Hq Hi' Hj' Hlt.
    assert (i = 6%nat) as ->.
    { eapply NoDup_lookup; [apply notebook_program_NoDup | exact Hi' | done]. }
    unfold db_calls in Hq.
    repeat (apply elem_of_cons in Hq as [->|Hq];
            [match type of Hj' with
             | _ !! ?m = Some ?x =>
                 match goal with
                 | |- _ =>
                     assert (∃ m', (m' < 6)%nat ∧ notebook_program !! m' = Some x)
                       as (m' & Hm' & Hx)
                       by (first [by exists 0%nat; split; [lia|]
                                 | by exists 1%nat; split; [lia|]
                                 | by exists 2%nat; split; [lia|]
                                 | by exists 3%nat; split; [lia|]
                                 | by exists 4%nat; split; [lia|]
                                 | by exists 5%nat; split; [lia|] ]);
                     assert (m = m') by
                       (eapply NoDup_lookup;
                        [apply notebook_program_NoDup | exact Hj' | exact Hx]);
                     lia
                 end
             end|]).
    by apply elem_of_nil in Hq. }
  apply NoDup_app in Hnd as (_ & Hdisj & _).
  apply (Hdisj p); [|left].
  apply Hbefore; [done| |done]. apply elem_of_app. right. left.
Qed.
End RunOutcome.
